(** * Wildfire detection streaming server: smoothing and streaming loop

    A shallow embedding of [stream_server.py]: the overlay renderer
    [draw_detections], the per-frame body of [generate_frames] (the bounded
    detection history, the confidence-weighted average over the per-frame
    representatives) and the generator loop itself.

    State.  The module-level [detection_history] and the loop's
    [frame_count] are threaded explicitly; a step returns the state it
    leaves together with its value or the exception it raises.

    Outside world.  The camera is the list of frames it will still deliver;
    the detector, [cv2.getTextSize] and [cv2.imencode] are parameters; a
    frame records the drawing calls applied to it instead of pixels.  The
    generator is described by the whole stream a consumer gets when it
    reads to the end.

    Numbers.  Detector outputs and the configured thresholds are finite
    values, modelled as canonical rationals [Qc].  The frame loop is
    embedded twice as far as the averaging goes.  In [smooth] the values
    numpy computes are [npfloat]s, the rationals extended with the two
    infinities and NaN: the IEEE rules for the special values, and no
    rounding, no overflow, no signed zero; what is proved of it are the
    facts that do not depend on how a result is rounded (the history, the
    branch taken, the special values).  In [smooth_in] the sums, products
    and quotients of numpy are parameters, so that what is proved of the
    averaged row holds for every rounding; [Binary32] instantiates them
    with IEEE binary32 for concrete evaluations. *)

From Stdlib Require Import ZArith QArith Qcanon List Bool Lia String Ascii.
From Stdlib Require Import SpecFloat.
Import ListNotations.

Open Scope Z_scope.

(** ** Exceptions and results *)

Inductive exn : Type :=
| ZeroDivisionError
| ValueError
| OverflowError.

Inductive result (A : Type) : Type :=
| Ok (a : A)
| Raise (e : exn).
Arguments Ok {A} a.
Arguments Raise {A} e.

Definition bind {A B : Type} (r : result A) (k : A -> result B) : result B :=
  match r with
  | Ok a => k a
  | Raise e => Raise e
  end.

Notation "x <- r ;; k" := (bind r (fun x => k))
  (at level 61, r at next level, right associativity).

(** ** Floating-point values with the IEEE special values *)

Module NpFloat.

Inductive npfloat : Type :=
| Fin (q : Qc)
| PInf
| NInf
| NaN.

Definition is_finite (x : npfloat) : bool :=
  match x with Fin _ => true | _ => false end.

(** The infinity whose sign is that of the finite value [q]; NaN for zero. *)
Definition signed_inf (q : Qc) : npfloat :=
  match (q ?= 0)%Qc with
  | Gt => PInf
  | Lt => NInf
  | Eq => NaN
  end.

Definition flip (x : npfloat) : npfloat :=
  match x with
  | PInf => NInf
  | NInf => PInf
  | other => other
  end.

Definition add (x y : npfloat) : npfloat :=
  match x, y with
  | Fin a, Fin b => Fin (a + b)%Qc
  | NaN, _ | _, NaN => NaN
  | PInf, NInf | NInf, PInf => NaN
  | PInf, _ | _, PInf => PInf
  | NInf, _ | _, NInf => NInf
  end.

Definition mul (x y : npfloat) : npfloat :=
  match x, y with
  | Fin a, Fin b => Fin (a * b)%Qc
  | NaN, _ | _, NaN => NaN
  | Fin a, PInf | PInf, Fin a => signed_inf a
  | Fin a, NInf | NInf, Fin a => flip (signed_inf a)
  | PInf, PInf | NInf, NInf => PInf
  | PInf, NInf | NInf, PInf => NInf
  end.

(** [x / y]; a zero divisor counts as positive zero. *)
Definition div (x y : npfloat) : npfloat :=
  match x, y with
  | NaN, _ | _, NaN => NaN
  | Fin a, Fin b =>
      match (b ?= 0)%Qc with
      | Eq => signed_inf a
      | _ => Fin (a / b)%Qc
      end
  | Fin _, _ => Fin 0%Qc
  | PInf, Fin b =>
      match (b ?= 0)%Qc with Lt => NInf | _ => PInf end
  | NInf, Fin b =>
      match (b ?= 0)%Qc with Lt => PInf | _ => NInf end
  | _, _ => NaN
  end.

(** Comparisons: every comparison with NaN is false. *)
Definition eqb (x y : npfloat) : bool :=
  match x, y with
  | Fin a, Fin b => match (a ?= b)%Qc with Eq => true | _ => false end
  | PInf, PInf | NInf, NInf => true
  | _, _ => false
  end.

Definition ltb (x y : npfloat) : bool :=
  match x, y with
  | NaN, _ | _, NaN => false
  | Fin a, Fin b => match (a ?= b)%Qc with Lt => true | _ => false end
  | NInf, NInf | PInf, _ | _, NInf => false
  | _, _ => true
  end.

Definition geb (x y : npfloat) : bool :=
  match x, y with
  | NaN, _ | _, NaN => false
  | _, _ => negb (ltb x y)
  end.

(** [ndarray.sum()] of a one-dimensional array. *)
Definition sum (l : list npfloat) : npfloat :=
  fold_right add (Fin 0%Qc) l.

(** Python's [int(x)] on a float: truncation toward zero; NaN and the
    infinities have no integer value. *)
Definition to_int (x : npfloat) : result Z :=
  match x with
  | Fin q => Ok (Z.quot (Qnum q) (Zpos (Qden q)))
  | NaN => Raise ValueError
  | _ => Raise OverflowError
  end.

End NpFloat.
Import NpFloat.

(** ** Data model *)

(** One row of the detector's output for a frame:
    [(x_min, y_min, x_max, y_max, conf, class_id)]. *)
Record detection : Type := mkDetection {
  x_min : Qc;
  y_min : Qc;
  x_max : Qc;
  y_max : Qc;
  conf : Qc;
  class_id : Qc
}.

(** One row of a tensor handed to [draw_detections]; the smoothed row is
    built from numpy results, so its entries are [npfloat]s. *)
Record row : Type := mkRow {
  r_x_min : npfloat;
  r_y_min : npfloat;
  r_x_max : npfloat;
  r_y_max : npfloat;
  r_conf : npfloat;
  r_class_id : npfloat
}.

Definition tensor_of (d : detection) : row :=
  mkRow (Fin (x_min d)) (Fin (y_min d)) (Fin (x_max d)) (Fin (y_max d))
        (Fin (conf d)) (Fin (class_id d)).

(** The parsed command line, as far as the frame loop reads it. *)
Record Namespace : Type := mkArgs {
  image_size : Z;
  conf_threshold : Qc;
  smooth_frames : Z;
  nms_threshold : Qc
}.

(** Text drawn on a frame. *)
Inductive text : Type :=
| Wildfire (c : npfloat)      (* f"Wildfire: {conf:.2f}" *)
| Literal (s : string)
| FrameNo (n : Z).            (* f"Frame: {frame_count}" *)

Definition point : Type := (Z * Z)%type.
Definition colour : Type := (Z * Z * Z)%type.

(** The OpenCV drawing calls the server makes. *)
Inductive draw_op : Type :=
| Rectangle (pt1 pt2 : point) (color : colour) (thickness : Z)
| PutText (t : text) (org : point) (fontScale : Qc) (color : colour)
          (thickness : Z).

Definition len {A : Type} (l : list A) : Z := Z.of_nat (List.length l).

Definition Qc_geb (a b : Qc) : bool :=
  match (a ?= b)%Qc with Lt => false | _ => true end.

Definition Qc_of_Z (z : Z) : Qc := Q2Qc (inject_Z z).

Definition decimal (n : Z) (d : positive) : Qc := Q2Qc (n # d).

(** ** numpy helpers *)

(** [np.argmax] of a one-dimensional array: the index of the first
    occurrence of the maximum. *)
Fixpoint argmax_from (best : Qc) (best_idx idx : nat) (l : list Qc) : nat :=
  match l with
  | [] => best_idx
  | x :: t =>
      match (x ?= best)%Qc with
      | Gt => argmax_from x idx (S idx) t
      | _ => argmax_from best best_idx (S idx) t
      end
  end.

Definition np_argmax (l : list Qc) : nat :=
  match l with
  | [] => O
  | x :: t => argmax_from x 0 1 t
  end.

(** [np.average(a, weights=w)] of a one-dimensional array with as many
    weights: the weights are summed, a sum equal to [0.0] raises, otherwise
    the sum of the products is divided by it. *)
Definition np_average (a weights : list npfloat) : result npfloat :=
  let scl := sum weights in
  if eqb scl (Fin 0%Qc) then Raise ZeroDivisionError
  else Ok (div (sum (map (fun aw => mul (fst aw) (snd aw)) (combine a weights)))
               scl).

(** ** The frame loop *)

Section Pipeline.

(** Pixel data of a captured frame. *)
Variable image : Type.

(** [cv2.getTextSize(label, FONT_HERSHEY_SIMPLEX, 0.6, 1)]:
    [((text_width, text_height), baseline)]. *)
Variable getTextSize : text -> (Z * Z) * Z.

(** A frame: its [shape[:2]] as [(height, width)], the captured pixels and
    the drawing calls applied to it so far, oldest first. *)
Record frame : Type := mkFrame {
  shape : Z * Z;
  pixels : image;
  overlay : list draw_op
}.

(** The detector, a black box: [preprocess_frame(frame, image_size)], the
    model's forward pass, and [model.decode_predictions(predictions,
    conf_threshold, nms_threshold)], which returns the detections of each
    image of the batch. *)
Variable tensor : Type.
Variable predictions_t : Type.
Variable preprocess_frame : image -> Z -> tensor.
Variable model : tensor -> predictions_t.
Variable decode_predictions :
  predictions_t -> Qc -> Qc -> list (list detection).

(** [cv2.imencode('.jpg', frame)]: the encoded bytes, or [None] when the
    returned flag is false. *)
Variable imencode : frame -> option string.

Definition put (op : list draw_op) (f : frame) : frame :=
  mkFrame (shape f) (pixels f) (overlay f ++ op).

(** [max(0, min(hi, x))] *)
Definition clamp (hi x : Z) : Z := Z.max 0 (Z.min hi x).

Definition red : colour := (0, 0, 255).
Definition white : colour := (255, 255, 255).
Definition green : colour := (0, 255, 0).

(** Lines 68-76 of [draw_detections]: the pixel corners of a row's box. *)
Definition pixel_box (f : frame) (det : row) : result (point * point) :=
  let frame_h := fst (shape f) in
  let frame_w := snd (shape f) in
  x1 <- to_int (mul (r_x_min det) (Fin (Qc_of_Z frame_w))) ;;
  y1 <- to_int (mul (r_y_min det) (Fin (Qc_of_Z frame_h))) ;;
  x2 <- to_int (mul (r_x_max det) (Fin (Qc_of_Z frame_w))) ;;
  y2 <- to_int (mul (r_y_max det) (Fin (Qc_of_Z frame_h))) ;;
  Ok ((clamp (frame_w - 1) x1, clamp (frame_h - 1) y1),
      (clamp (frame_w - 1) x2, clamp (frame_h - 1) y2)).

(** The drawing calls for one row that passed the threshold test. *)
Definition box_ops (det : row) (corners : point * point) : list draw_op :=
  let '((x1, y1), (x2, y2)) := corners in
  let label := Wildfire (r_conf det) in
  let '((text_width, text_height), baseline) := getTextSize label in
  [ Rectangle (x1, y1) (x2, y2) red 2;
    Rectangle (x1, y1 - text_height - baseline - 5) (x1 + text_width, y1)
              red (-1);
    PutText label (x1, y1 - baseline - 2) (decimal 6 10) white 1 ].

Definition draw_detection (f : frame) (det : row) (threshold : Qc)
  : result frame :=
  if ltb (r_conf det) (Fin threshold) then Ok f
  else
    corners <- pixel_box f det ;;
    Ok (put (box_ops det corners) f).

Fixpoint draw_detections (f : frame) (detections : list row)
  (threshold : Qc) : result frame :=
  match detections with
  | [] => Ok f
  | det :: rest =>
      f' <- draw_detection f det threshold ;;
      draw_detections f' rest threshold
  end.

(** *** Smoothing: lines 134-194 of [generate_frames] *)

Definition detection_history_t : Type := list (list detection).

(** [detection_history.pop(0)] guarded by a non-emptiness test. *)
Definition evict_oldest (h : detection_history_t) : detection_history_t :=
  if 0 <? len h then tl h else h.

(** Lines 149-153: the best row of every non-empty history entry. *)
Definition best_of (hist_frame : list detection) : list detection :=
  match hist_frame with
  | [] => []
  | d0 :: _ => [nth (np_argmax (map conf hist_frame)) hist_frame d0]
  end.

Definition representatives (h : detection_history_t) : list detection :=
  flat_map best_of h.

Definition column (p : detection -> Qc) (a : list detection) : list npfloat :=
  map (fun d => Fin (p d)) a.

(** Lines 157-158: the confidences divided by their sum. *)
Definition normalized_weights (smoothed_dets : list detection)
  : list npfloat :=
  let weights := column conf smoothed_dets in
  let total := sum weights in
  map (fun w => div w total) weights.

(** Lines 156-174: the average row, and the tensor to draw when its
    confidence passes the threshold. *)
Definition average_row (args : Namespace) (smoothed_dets : list detection)
  : result (option (list row)) :=
  let weights := normalized_weights smoothed_dets in
  b0 <- np_average (column x_min smoothed_dets) weights ;;
  b1 <- np_average (column y_min smoothed_dets) weights ;;
  b2 <- np_average (column x_max smoothed_dets) weights ;;
  b3 <- np_average (column y_max smoothed_dets) weights ;;
  avg_conf <- np_average (column conf smoothed_dets) weights ;;
  if geb avg_conf (Fin (conf_threshold args))
  then Ok (Some [mkRow b0 b1 b2 b3 avg_conf (Fin 0%Qc)])
  else Ok None.

(** The history after the frame, and either the tensor passed to
    [draw_detections] ([None] when nothing is drawn and [has_fire] stays
    false) or the exception raised on the way. *)
Definition smooth (args : Namespace) (detections : list (list detection))
  (detection_history : detection_history_t)
  : detection_history_t * result (option (list row)) :=
  if (0 <? len detections) && (0 <? len (nth 0 detections [])) then
    let dets_tensor := nth 0 detections [] in
    let filtered_dets :=
      filter (fun d => Qc_geb (conf d) (conf_threshold args)) dets_tensor in
    if 0 <? len filtered_dets then
      if 1 <? smooth_frames args then
        let h1 := detection_history ++ [filtered_dets] in
        let h2 := if smooth_frames args <? len h1 then tl h1 else h1 in
        if 2 <=? len h2 then
          let smoothed_dets := representatives h2 in
          match smoothed_dets with
          | [] => (h2, Ok None)
          | _ :: _ => (h2, average_row args smoothed_dets)
          end
        else (h2, Ok (Some (map tensor_of filtered_dets)))
      else (detection_history, Ok (Some (map tensor_of filtered_dets)))
    else (evict_oldest detection_history, Ok None)
  else (evict_oldest detection_history, Ok None).

(** *** The generator *)

Record state : Type := mkState {
  detection_history : detection_history_t;
  frame_count : Z
}.

Definition crlf : string :=
  String (ascii_of_nat 13) (String (ascii_of_nat 10) EmptyString).

(** The multipart chunk yielded for one encoded frame. *)
Definition chunk (frame_bytes : string) : string :=
  ("--frame" ++ crlf ++ "Content-Type: image/jpeg" ++ crlf ++ crlf
   ++ frame_bytes ++ crlf)%string.

(** Lines 123-218: the detection, smoothing and drawing for a frame that
    was read.  The state it leaves, and the annotated display frame or the
    exception raised on the way. *)
Definition annotate (args : Namespace) (st : state) (fr : frame)
  : state * result frame :=
  let display_frame := fr in
  let input_tensor := preprocess_frame (pixels fr) (image_size args) in
  let predictions := model input_tensor in
  let detections :=
    decode_predictions predictions (conf_threshold args) (nms_threshold args) in
  let '(h, outcome) := smooth args detections (detection_history st) in
  let drawn :=
    to_draw <- outcome ;;
    match to_draw with
    | Some tensor =>
        f <- draw_detections display_frame tensor (conf_threshold args) ;;
        Ok (f, true)
    | None => Ok (display_frame, false)
    end in
  match drawn with
  | Raise e => (mkState h (frame_count st), Raise e)
  | Ok (display_frame, has_fire) =>
      let status_text :=
        if has_fire : bool then "FIRE DETECTED"%string else "No Fire"%string in
      let status_color := if has_fire then red else green in
      let display_frame :=
        put [PutText (Literal status_text) (10, 60) (decimal 7 10)
                     status_color 2] display_frame in
      let frame_count := frame_count st + 1 in
      let display_frame :=
        put [PutText (FrameNo frame_count) (10, 30) (decimal 7 10) green 2]
            display_frame in
      (mkState h frame_count, Ok display_frame)
  end.

(** One pass through the body of the [while] loop: after [annotate], lines
    220-229 encode the frame and yield its chunk; [None] when the encoder
    fails and the loop continues. *)
Definition iteration (args : Namespace) (st : state) (fr : frame)
  : state * result (option string) :=
  let '(st', annotated) := annotate args st fr in
  match annotated with
  | Raise e => (st', Raise e)
  | Ok display_frame =>
      match imencode display_frame with
      | None => (st', Ok None)
      | Some buffer => (st', Ok (Some (chunk buffer)))
      end
  end.

(** The capture device: whether it is opened, and the frames it will
    still deliver; a read past the last one reports failure. *)
Record VideoCapture : Type := mkCapture {
  isOpened : bool;
  pending : list frame
}.

(** How the generator stopped. *)
Inductive ending : Type :=
| Finished
| Crashed (e : exn).

(** The [while True] loop: the chunks yielded, how it ended, and the state
    left behind.  Each pass consumes one pending frame. *)
Fixpoint frames_loop (args : Namespace) (opened : bool)
  (frames : list frame) (st : state) : list string * ending * state :=
  if negb opened then ([], Finished, st)
  else
    match frames with
    | [] => ([], Finished, st)
    | fr :: rest =>
        match iteration args st fr with
        | (st', Raise e) => ([], Crashed e, st')
        | (st', Ok None) => frames_loop args opened rest st'
        | (st', Ok (Some c)) =>
            let '(cs, e, st'') := frames_loop args opened rest st' in
            (c :: cs, e, st'')
        end
    end.

Definition generate_frames (args : Namespace) (cap : option VideoCapture)
  (st : state) : list string * ending * state :=
  match cap with
  | None => ([], Finished, st)
  | Some c => frames_loop args (isOpened c) (pending c) st
  end.

(** The number of frames of a run whose annotated frame the encoder
    rejects. *)
Fixpoint encode_failures (args : Namespace) (frames : list frame)
  (st : state) : nat :=
  match frames with
  | [] => O
  | fr :: rest =>
      match annotate args st fr with
      | (st', Raise e) => O
      | (st', Ok display_frame) =>
          match imencode display_frame with
          | None => S (encode_failures args rest st')
          | Some _ => encode_failures args rest st'
          end
      end
  end.

(** The history after a sequence of frames, given each frame's decoded
    detections. *)
Fixpoint run_history (args : Namespace) (inputs : list (list (list detection)))
  (h : detection_history_t) : detection_history_t :=
  match inputs with
  | [] => h
  | detections :: rest => run_history args rest (fst (smooth args detections h))
  end.

End Pipeline.

Arguments mkFrame {image} shape pixels overlay.
Arguments shape {image} f.
Arguments pixels {image} f.
Arguments overlay {image} f.
Arguments put {image} op f.
Arguments pixel_box {image} f det.
Arguments mkCapture {image} isOpened pending.
Arguments isOpened {image} v.
Arguments pending {image} v.

(** ** Notions used in the statements *)

Definition Qsum (l : list Qc) : Qc := fold_right Qcplus 0%Qc l.

(** The confidence-weighted sum [Σ (c_i / Σ c_j) * v_i] of a coordinate [v]
    over the representatives. *)
Definition spec_weighted (v : detection -> Qc) (reps : list detection) : Qc :=
  Qsum (map (fun d => (conf d / Qsum (map conf reps)) * v d)%Qc reps).

(** A frame's filtered detection set: the detections of the first image of
    the batch whose confidence is at least the threshold. *)
Definition filtered_set (args : Namespace) (detections : list (list detection))
  : list detection :=
  filter (fun d => Qc_geb (conf d) (conf_threshold args)) (nth 0 detections []).

(** A detection of [l] whose confidence no other detection of [l] exceeds. *)
Definition highest_confidence (l : list detection) (d : detection) : Prop :=
  In d l /\ forall d', In d' l -> (conf d' <= conf d)%Qc.

(** The row the code draws when the averaged confidence passes. *)
Definition spec_row (reps : list detection) : row :=
  mkRow (Fin (spec_weighted x_min reps)) (Fin (spec_weighted y_min reps))
        (Fin (spec_weighted x_max reps)) (Fin (spec_weighted y_max reps))
        (Fin (spec_weighted conf reps)) (Fin 0%Qc).

(** Lines 143-146: append, then drop the oldest entry above the bound. *)
Definition push_evicting (args : Namespace) (filtered_dets : list detection)
  (h : detection_history_t) : detection_history_t :=
  let h1 := h ++ [filtered_dets] in
  if smooth_frames args <? len h1 then tl h1 else h1.

(** Every entry is a non-empty set of detections at or above the threshold. *)
Definition entry_ok (threshold : Qc) (e : list detection) : Prop :=
  e <> [] /\ Forall (fun d => (threshold <= conf d)%Qc) e.

Definition history_ok (threshold : Qc) (h : detection_history_t) : Prop :=
  Forall (entry_ok threshold) h.

(** A box outline (the rectangle of thickness 2) with both corners on
    pixels of a frame of the given shape; other drawing calls are not
    constrained. *)
Definition outline_within (shp : Z * Z) (op : draw_op) : Prop :=
  match op with
  | Rectangle (x1, y1) (x2, y2) _ thickness =>
      thickness = 2 ->
      (0 <= x1 <= snd shp - 1 /\ 0 <= y1 <= fst shp - 1) /\
      (0 <= x2 <= snd shp - 1 /\ 0 <= y2 <= fst shp - 1)
  | PutText _ _ _ _ _ => True
  end.

Definition box_finite (r : row) : bool :=
  is_finite (r_x_min r) && is_finite (r_y_min r)
  && is_finite (r_x_max r) && is_finite (r_y_max r).

(** ** The claims, in the specification's words *)

(** The averaged confidence exists and is at least the threshold. *)
Definition averaged_confidence_passes (args : Namespace)
  (reps : list detection) : bool :=
  match (Qsum (map conf reps) ?= 0)%Qc with
  | Eq => false
  | _ => Qc_geb (spec_weighted conf reps) (conf_threshold args)
  end.

(** Step 4 of the smoothing algorithm: one stabilized detection of class 0
    when the averaged confidence passes, none otherwise. *)
Definition spec_emission (args : Namespace) (h : detection_history_t)
  : option (list row) :=
  if averaged_confidence_passes args (representatives h)
  then Some [spec_row (representatives h)]
  else None.

Definition nonemptyb {A : Type} (l : list A) : bool :=
  match l with [] => false | _ :: _ => true end.

(** The average is emitted on every frame that leaves two or more entries
    in the history, whatever the frame's own filtered set. *)
Definition averages_on_every_frame : Prop :=
  forall (args : Namespace) (inputs : list (list (list detection)))
         (detections : list (list detection)),
    1 < smooth_frames args ->
    let h := run_history args inputs [] in
    2 <= len (fst (smooth args detections h)) ->
    snd (smooth args detections h)
    = Ok (spec_emission args (fst (smooth args detections h))).

(** With smoothing off, the single best detection of a non-empty filtered
    set is the result, and the history is left alone. *)
Definition disabled_emits_single_best : Prop :=
  forall (args : Namespace) (detections : list (list detection))
         (h : detection_history_t),
    smooth_frames args <= 1 ->
    filtered_set args detections <> [] ->
    exists d, highest_confidence (filtered_set args detections) d /\
              smooth args detections h = (h, Ok (Some [tensor_of d])).

(** Sample data. *)
Module Sample.

Definition det (c : Qc) : detection :=
  mkDetection (decimal 1 10) (decimal 2 10) (decimal 5 10) (decimal 6 10)
              c 0%Qc.

Definition wide : detection :=
  mkDetection (decimal (-1) 10) (decimal 2 10) (decimal 12 10) (decimal 6 10)
              (decimal 9 10) 0%Qc.

Definition args : Namespace := mkArgs 416 (decimal 4 10) 10 (decimal 4 10).
Definition args_zero : Namespace := mkArgs 416 0%Qc 10 (decimal 4 10).
Definition args_off : Namespace := mkArgs 416 (decimal 4 10) 1 (decimal 4 10).

Definition vga : frame unit := mkFrame (480, 640) tt [].

Definition text_size (t : text) : (Z * Z) * Z := ((120, 14), 5).

Definition hit (c : Qc) : list (list detection) := [[det c]].
Definition miss : list (list detection) := [].

(** A camera whose frames carry one bit: a fire is seen, and the frame
    encodes, exactly when the bit is set. *)
Definition shot (b : bool) : frame bool := mkFrame (480, 640) b [].
Definition decode (p : bool) (conf_threshold nms_threshold : Qc)
  : list (list detection) :=
  if p then hit (decimal 9 10) else miss.
Definition encoder (f : frame bool) : option string :=
  if pixels f then Some "jpeg"%string else None.
Definition stream (frames : list (frame bool))
  : list string * ending * state :=
  generate_frames bool text_size bool bool (fun img _ => img) (fun t => t)
                  decode encoder args (Some (mkCapture true frames))
                  (mkState [] 0).

End Sample.

(** ** The endpoints and the start-up *)

Section Endpoints.

Variable image : Type.
Variable getTextSize : text -> (Z * Z) * Z.
Variable tensor : Type.
Variable predictions_t : Type.
Variable preprocess_frame : image -> Z -> tensor.
Variable model : tensor -> predictions_t.
Variable decode_predictions :
  predictions_t -> Qc -> Qc -> list (list detection).
Variable imencode : frame image -> option string.

(** Lines 124-132: what the detector returns for a frame. *)
Definition detections_of (args : Namespace) (fr : frame image)
  : list (list detection) :=
  decode_predictions (model (preprocess_frame (pixels fr) (image_size args)))
                     (conf_threshold args) (nms_threshold args).

(** [GET /stream]: the body is [generate_frames()], which works on the
    module's capture and detection history and starts its own
    [frame_count] at 0. *)
Definition video_feed (args : Namespace) (cap : option (VideoCapture image))
  (history : detection_history_t) : list string * ending * state :=
  generate_frames image getTextSize tensor predictions_t preprocess_frame
                  model decode_predictions imencode args cap
                  (mkState history 0).

End Endpoints.

(** [GET /status]. *)
Record status_t : Type := mkStatus {
  camera_ready : bool;
  model_loaded : bool;
  device_name : option string
}.

Definition status {image model_t device_t : Type}
  (cap : option (VideoCapture image)) (model : option model_t)
  (device : option device_t) (str : device_t -> string) : status_t :=
  mkStatus (match cap with Some c => isOpened c | None => false end)
           (match model with Some _ => true | None => false end)
           (match device with Some d => Some (str d) | None => None end).

(** A [torch.device]: its type and optional index. *)
Record torch_device : Type := mkDevice {
  dev_type : string;
  dev_index : option Z
}.

(** Lines 303-315 of [main]: the device the model runs on, from the
    [--device] argument and [torch.cuda.is_available()].  [parse] is
    [torch.device(string)], [None] when it raises. *)
Definition select_device (requested : string) (cuda_is_available : bool)
  (parse : string -> option torch_device) : option torch_device :=
  if String.eqb requested "auto" then
    if cuda_is_available then Some (mkDevice "cuda" None)
    else Some (mkDevice "cpu" None)
  else
    match parse requested with
    | None => None
    | Some device =>
        if String.eqb (dev_type device) "cuda" && negb cuda_is_available
        then Some (mkDevice "cpu" None)
        else Some device
    end.

(** ** Further notions used in the statements *)

(** What each frame of a run hands to the renderer, oldest first. *)
Fixpoint run_outputs (args : Namespace) (inputs : list (list (list detection)))
  (h : detection_history_t) : list (result (option (list row))) :=
  match inputs with
  | [] => []
  | detections :: rest =>
      snd (smooth args detections h)
      :: run_outputs args rest (fst (smooth args detections h))
  end.

(** The last [n] elements of a list. *)
Definition lastn {A : Type} (n : nat) (l : list A) : list A :=
  skipn (List.length l - n) l.

(** A frame with a detection followed by a frame without, repeated. *)
Definition flicker
  (pairs : list (list (list detection) * list (list detection)))
  : list (list (list detection)) :=
  flat_map (fun p => [fst p; snd p]) pairs.

(** A row that [draw_detections] does not skip. *)
Definition passes (threshold : Qc) (r : row) : bool :=
  negb (ltb (r_conf r) (Fin threshold)).

(** A box outline drawn by [draw_detections]. *)
Definition is_outline (op : draw_op) : bool :=
  match op with
  | Rectangle _ _ _ thickness => thickness =? 2
  | PutText _ _ _ _ _ => false
  end.

(** Python's [int] on a finite value. *)
Definition trunc (q : Qc) : Z := Z.quot (Qnum q) (Zpos (Qden q)).

(** The pixel corners [draw_detections] computes for a detection on a frame
    of shape [(frame_h, frame_w)]. *)
Definition detection_corners (shp : Z * Z) (d : detection) : point * point :=
  let frame_h := fst shp in
  let frame_w := snd shp in
  ((clamp (frame_w - 1) (trunc (x_min d * Qc_of_Z frame_w)),
    clamp (frame_h - 1) (trunc (y_min d * Qc_of_Z frame_h))),
   (clamp (frame_w - 1) (trunc (x_max d * Qc_of_Z frame_w)),
    clamp (frame_h - 1) (trunc (y_max d * Qc_of_Z frame_h)))).

(** The three drawing calls for each detection of a list, in order. *)
Definition detections_ops (getTextSize : text -> (Z * Z) * Z) (shp : Z * Z)
  (ds : list detection) : list draw_op :=
  flat_map (fun d => box_ops getTextSize (tensor_of d)
                             (detection_corners shp d)) ds.

(** The weighted average of the representatives, as a detection. *)
Definition averaged_detection (reps : list detection) : detection :=
  mkDetection (spec_weighted x_min reps) (spec_weighted y_min reps)
              (spec_weighted x_max reps) (spec_weighted y_max reps)
              (spec_weighted conf reps) 0%Qc.

(** The detections a frame hands to the renderer, if any: the filtered set
    as it is, or the averaged detection when the step averages. *)
Definition stabilized (args : Namespace) (detections : list (list detection))
  (h : detection_history_t) : option (list detection) :=
  match filtered_set args detections with
  | [] => None
  | _ :: _ =>
      if 1 <? smooth_frames args then
        let h2 := push_evicting args (filtered_set args detections) h in
        if 2 <=? len h2 then
          if averaged_confidence_passes args (representatives h2)
          then Some [averaged_detection (representatives h2)]
          else None
        else Some (filtered_set args detections)
      else Some (filtered_set args detections)
  end.

(** The two lines of text that close every annotated frame. *)
Definition status_ops (has_fire : bool) (frame_count : Z) : list draw_op :=
  [ PutText (Literal (if has_fire then "FIRE DETECTED" else "No Fire")%string)
            (10, 60) (decimal 7 10) (if has_fire then red else green) 2;
    PutText (FrameNo frame_count) (10, 30) (decimal 7 10) green 2 ].

(** ** The averaging in the arithmetic of the code

    The averaging of lines 156-163 is done by numpy on float32 arrays:
    every product, quotient and sum is rounded, and the order in which a
    sum adds its terms is numpy's.  The definitions below repeat the
    smoothing step with these operations as parameters, so that what is
    proved of it holds whatever the rounding; [Binary32] then gives the
    operations of IEEE binary32. *)

(** The [axis] argument of a reduction: none (a one-dimensional array is
    summed) or 0 (the rows of a two-dimensional array are summed). *)
Inductive reduction : Type :=
| Flat
| Axis0.

Record arithmetic : Type := mkArithmetic {
  number : Type;
  (** a value the detector returned, or a literal *)
  lift : Qc -> number;
  (** [ndarray.sum] *)
  np_sum : reduction -> list number -> number;
  np_mul : number -> number -> number;
  np_div : number -> number -> number;
  (** [x == 0.0] *)
  is_zero : number -> bool;
  (** [x >= conf_threshold] *)
  ge_threshold : number -> Qc -> bool
}.

Section InArithmetic.

Variable A : arithmetic.

(** One row of a tensor whose entries were computed by numpy. *)
Record row_in : Type := mkRowIn {
  i_x_min : number A;
  i_y_min : number A;
  i_x_max : number A;
  i_y_max : number A;
  i_conf : number A;
  i_class_id : number A
}.

Definition lift_row (d : detection) : row_in :=
  mkRowIn (lift A (x_min d)) (lift A (y_min d)) (lift A (x_max d))
          (lift A (y_max d)) (lift A (conf d)) (lift A (class_id d)).

Definition column_in (p : detection -> Qc) (a : list detection)
  : list (number A) :=
  map (fun d => lift A (p d)) a.

(** [np.average(a, axis=axis, weights=w)] for one column. *)
Definition np_average_in (axis : reduction) (a weights : list (number A))
  : result (number A) :=
  let scl := np_sum A axis weights in
  if is_zero A scl then Raise ZeroDivisionError
  else Ok (np_div A
             (np_sum A axis
                (map (fun aw => np_mul A (fst aw) (snd aw)) (combine a weights)))
             scl).

(** Lines 157-158. *)
Definition normalized_weights_in (smoothed_dets : list detection)
  : list (number A) :=
  let weights := column_in conf smoothed_dets in
  let total := np_sum A Flat weights in
  map (fun w => np_div A w total) weights.

(** Lines 156-174. *)
Definition average_row_in (args : Namespace) (smoothed_dets : list detection)
  : result (option (list row_in)) :=
  let weights := normalized_weights_in smoothed_dets in
  b0 <- np_average_in Axis0 (column_in x_min smoothed_dets) weights ;;
  b1 <- np_average_in Axis0 (column_in y_min smoothed_dets) weights ;;
  b2 <- np_average_in Axis0 (column_in x_max smoothed_dets) weights ;;
  b3 <- np_average_in Axis0 (column_in y_max smoothed_dets) weights ;;
  avg_conf <- np_average_in Flat (column_in conf smoothed_dets) weights ;;
  if ge_threshold A avg_conf (conf_threshold args)
  then Ok (Some [mkRowIn b0 b1 b2 b3 avg_conf (lift A 0%Qc)])
  else Ok None.

(** Lines 134-194, as [smooth], with the averaging in the arithmetic [A]. *)
Definition smooth_in (args : Namespace) (detections : list (list detection))
  (detection_history : detection_history_t)
  : detection_history_t * result (option (list row_in)) :=
  if (0 <? len detections) && (0 <? len (nth 0 detections [])) then
    let dets_tensor := nth 0 detections [] in
    let filtered_dets :=
      filter (fun d => Qc_geb (conf d) (conf_threshold args)) dets_tensor in
    if 0 <? len filtered_dets then
      if 1 <? smooth_frames args then
        let h1 := detection_history ++ [filtered_dets] in
        let h2 := if smooth_frames args <? len h1 then tl h1 else h1 in
        if 2 <=? len h2 then
          let smoothed_dets := representatives h2 in
          match smoothed_dets with
          | [] => (h2, Ok None)
          | _ :: _ => (h2, average_row_in args smoothed_dets)
          end
        else (h2, Ok (Some (map lift_row filtered_dets)))
      else (detection_history, Ok (Some (map lift_row filtered_dets)))
    else (evict_oldest detection_history, Ok None)
  else (evict_oldest detection_history, Ok None).

(** *** What the specification says, in the arithmetic [A] *)

(** The weight [c / Σ c_j] of a representative. *)
Definition weight_in (reps : list detection) (d : detection) : number A :=
  np_div A (lift A (conf d)) (np_sum A Flat (column_in conf reps)).

(** The weighted average of a coordinate: the sum of the products
    [v_i * w_i] over the sum of the weights. *)
Definition weighted_average_in (axis : reduction) (v : detection -> Qc)
  (reps : list detection) : number A :=
  np_div A
    (np_sum A axis
       (map (fun d => np_mul A (lift A (v d)) (weight_in reps d)) reps))
    (np_sum A axis (map (weight_in reps) reps)).

(** The row of the weighted averages, with class id 0. *)
Definition averaged_row_in (reps : list detection) : row_in :=
  mkRowIn (weighted_average_in Axis0 x_min reps)
          (weighted_average_in Axis0 y_min reps)
          (weighted_average_in Axis0 x_max reps)
          (weighted_average_in Axis0 y_max reps)
          (weighted_average_in Flat conf reps)
          (lift A 0%Qc).

(** Step 4 of the smoothing algorithm over the representatives: nothing
    without representatives; [np.average] raises when the weights sum to
    zero; otherwise one row when the averaged confidence passes. *)
Definition emission_in (args : Namespace) (reps : list detection)
  : result (option (list row_in)) :=
  match reps with
  | [] => Ok None
  | _ :: _ =>
      if is_zero A (np_sum A Axis0 (map (weight_in reps) reps))
         || is_zero A (np_sum A Flat (map (weight_in reps) reps))
      then Raise ZeroDivisionError
      else if ge_threshold A (weighted_average_in Flat conf reps)
                           (conf_threshold args)
           then Ok (Some [averaged_row_in reps])
           else Ok None
  end.

(** The behaviour of one value under the operations that an average over
    a single row applies to it. *)
Definition unit_laws (x : number A) : Prop :=
  np_sum A Flat [x] = x /\ np_sum A Axis0 [x] = x /\
  np_mul A x (lift A 1%Qc) = x /\ np_div A x (lift A 1%Qc) = x.

(** The values of a row behave under the operations as finite IEEE values
    with a non-zero confidence do: [c / c] is 1, 1 is not zero, and a sum
    of one term, a product with 1 and a quotient by 1 are the value
    itself. *)
Definition single_laws (r : detection) : Prop :=
  np_div A (lift A (conf r)) (lift A (conf r)) = lift A 1%Qc /\
  is_zero A (lift A 1%Qc) = false /\
  unit_laws (lift A 1%Qc) /\
  unit_laws (lift A (x_min r)) /\ unit_laws (lift A (y_min r)) /\
  unit_laws (lift A (x_max r)) /\ unit_laws (lift A (y_max r)) /\
  unit_laws (lift A (conf r)).

(** A representative as the row it gives when it is emitted alone: its
    box and confidence, with class id 0. *)
Definition single_row (r : detection) : row_in :=
  mkRowIn (lift A (x_min r)) (lift A (y_min r)) (lift A (x_max r))
          (lift A (y_max r)) (lift A (conf r)) (lift A 0%Qc).

End InArithmetic.

Arguments mkRowIn {A} _ _ _ _ _ _.
Arguments i_x_min {A} r.
Arguments i_y_min {A} r.
Arguments i_x_max {A} r.
Arguments i_y_max {A} r.
Arguments i_conf {A} r.
Arguments i_class_id {A} r.

(** IEEE binary32, rounding to nearest even. *)
Module Binary32.

Definition prec : Z := 24.
Definition emax : Z := 128.

Definition add : spec_float -> spec_float -> spec_float := SFadd prec emax.
Definition mul : spec_float -> spec_float -> spec_float := SFmul prec emax.
Definition div : spec_float -> spec_float -> spec_float := SFdiv prec emax.

Definition of_Z (z : Z) : spec_float := binary_normalize prec emax z 0 false.

(** The binary32 value nearest to [n / d]; exact on the binary32 values. *)
Definition of_Qc (q : Qc) : spec_float :=
  div (of_Z (Qnum q)) (of_Z (Zpos (Qden q))).

(** The terms added one after the other, which is how numpy sums the few
    elements of the arrays evaluated below; the sums of two terms that the
    examples use are the same in every order. *)
Definition sum (axis : reduction) (l : list spec_float) : spec_float :=
  fold_left add l (S754_zero false).

Definition arith : arithmetic :=
  mkArithmetic spec_float of_Qc sum mul div
               (fun x => SFeqb x (S754_zero false))
               (fun x threshold => SFleb (of_Qc threshold) x).

(** The rational a finite binary32 value stands for, in lowest terms. *)
Definition value (x : spec_float) : option Q :=
  match x with
  | S754_zero _ => Some (0 # 1)
  | S754_finite s m e =>
      let n := if s then Zneg m else Zpos m in
      Some (match e with
            | Zneg k => Qred (n # (2 ^ k)%positive)
            | _ => inject_Z (n * 2 ^ e)
            end)
  | _ => None
  end.

(** A rational that is a binary32 value. *)
Definition representable (q : Qc) : Prop := value (of_Qc q) = Some (this q).

(** A detector row of binary32 values. *)
Definition is_row (d : detection) : Prop :=
  representable (x_min d) /\ representable (y_min d) /\
  representable (x_max d) /\ representable (y_max d) /\
  representable (conf d) /\ representable (class_id d).

Definition box (c : Qc) : detection :=
  mkDetection (Q2Qc (1 # 8)) (Q2Qc (1 # 4)) (Q2Qc (7 # 8)) (Q2Qc (5 # 8))
              c 0%Qc.

Definition args : Namespace :=
  mkArgs 416 (Q2Qc (1 # 2)) 10 (Q2Qc (1 # 2)).

End Binary32.

(** The exact arithmetic of [NpFloat] as an instance. *)
Definition exact_arithmetic : arithmetic :=
  mkArithmetic npfloat Fin (fun _ => sum) mul div
               (fun x => eqb x (Fin 0%Qc))
               (fun x threshold => geb x (Fin threshold)).

(** ** Further claims, in the specification's words *)

(** The emitted box and confidence are the confidence-weighted sums
    themselves, for detector rows of binary32 values averaged in
    binary32. *)
Definition emitted_row_is_exact_weighted_sum : Prop :=
  forall (args : Namespace) (detections : list (list detection))
         (h : detection_history_t) (r : row_in Binary32.arith),
    let h' := fst (smooth_in Binary32.arith args detections h) in
    let reps := representatives h' in
    1 < smooth_frames args ->
    Forall (Forall Binary32.is_row) (nth 0 detections [] :: h) ->
    2 <= len h' ->
    snd (smooth_in Binary32.arith args detections h) = Ok (Some [r]) ->
    Binary32.value (i_x_min r) = Some (this (spec_weighted x_min reps)) /\
    Binary32.value (i_y_min r) = Some (this (spec_weighted y_min reps)) /\
    Binary32.value (i_x_max r) = Some (this (spec_weighted x_max reps)) /\
    Binary32.value (i_y_max r) = Some (this (spec_weighted y_max reps)) /\
    Binary32.value (i_conf r) = Some (this (spec_weighted conf reps)).

(** The weight normalization is guarded: when every representative has
    confidence 0 the sum is not divided by, so no weight is NaN or
    infinite, and the step ends with no detection and no error. *)
Definition normalization_is_guarded : Prop :=
  forall (args : Namespace) (detections : list (list detection))
         (h : detection_history_t),
    let reps := representatives (fst (smooth args detections h)) in
    1 < smooth_frames args ->
    2 <= len (fst (smooth args detections h)) ->
    (forall r, In r reps -> conf r = 0%Qc) ->
    Forall (fun w => is_finite w = true) (normalized_weights reps) /\
    snd (smooth args detections h) = Ok None.

(** ** Ranges of the inputs *)

(** A detector row with a confidence in [[0, 1]] and box coordinates of
    magnitude at most [2^16]. *)
Definition in_range (d : detection) : bool :=
  Qc_geb (conf d) 0%Qc && Qc_geb 1%Qc (conf d)
  && forallb (fun v => Qc_geb v (Qc_of_Z (- 65536))
                       && Qc_geb (Qc_of_Z 65536) v)
             [x_min d; y_min d; x_max d; y_max d].

(** A frame of at most [2^16] rows and columns. *)
Definition shape_in_range (shp : Z * Z) : bool :=
  (0 <=? fst shp) && (fst shp <=? 65536)
  && (0 <=? snd shp) && (snd shp <=? 65536).

(** A history of at most [2^16] entries of rows in range. *)
Definition history_in_range (h : detection_history_t) : bool :=
  (len h <=? 65536) && forallb (forallb in_range) h.

(** ** Arithmetic of the weights *)

Lemma Qc_compare_refl (a : Qc) : (a ?= a)%Qc = Eq.
Proof. apply Qceq_alt. reflexivity. Qed.

Lemma Qc_compare_neq (a b : Qc) : a <> b -> (a ?= b)%Qc <> Eq.
Proof. intros H E. apply H. apply Qceq_alt. exact E. Qed.

Lemma Qc_geb_le (a b : Qc) : Qc_geb a b = true <-> (b <= a)%Qc.
Proof.
  unfold Qc_geb. destruct (a ?= b)%Qc eqn:E; split; intro H; try reflexivity.
  - apply Qceq_alt in E. subst. apply Qcle_refl.
  - discriminate.
  - apply Qclt_alt in E. exfalso. exact (Qclt_not_le _ _ E H).
  - apply Qcgt_alt in E. apply Qclt_le_weak. exact E.
Qed.

Lemma sum_Fin (l : list Qc) : sum (map Fin l) = Fin (Qsum l).
Proof.
  induction l as [|a l IH]; [reflexivity|].
  change (sum (map Fin (a :: l))) with (add (Fin a) (sum (map Fin l))).
  rewrite IH. reflexivity.
Qed.

Lemma column_Fin (p : detection -> Qc) (a : list detection) :
  column p a = map Fin (map p a).
Proof. unfold column. rewrite map_map. reflexivity. Qed.

Lemma div_Fin (a b : Qc) : b <> 0%Qc -> div (Fin a) (Fin b) = Fin (a / b)%Qc.
Proof.
  intro H. simpl. destruct (b ?= 0)%Qc eqn:E; try reflexivity.
  exfalso. exact (Qc_compare_neq _ _ H E).
Qed.

Lemma Qsum_div (f : detection -> Qc) (s : Qc) (l : list detection) :
  Qsum (map (fun d => f d / s)%Qc l) = (Qsum (map f l) / s)%Qc.
Proof.
  induction l as [|d l IH]; simpl.
  - unfold Qcdiv. ring.
  - rewrite IH. unfold Qcdiv. ring.
Qed.

Lemma combine_map_same {A B C : Type} (f : A -> B) (g : A -> C) (l : list A) :
  combine (map f l) (map g l) = map (fun x => (f x, g x)) l.
Proof. induction l; simpl; congruence. Qed.

Section Normalized.

Variable reps : list detection.
Let total : Qc := Qsum (map conf reps).

(** With a non-zero sum every weight is the finite quotient [c_i / Σ c_j]. *)
Lemma normalized_weights_finite :
  total <> 0%Qc ->
  normalized_weights reps = map (fun d => Fin (conf d / total)%Qc) reps.
Proof.
  intro H. unfold normalized_weights.
  rewrite column_Fin, sum_Fin. fold total.
  rewrite !map_map. apply map_ext. intro d. apply div_Fin. exact H.
Qed.

Lemma weights_sum_one :
  total <> 0%Qc ->
  sum (normalized_weights reps) = Fin 1%Qc.
Proof.
  intro H. rewrite normalized_weights_finite by exact H.
  replace (map (fun d => Fin (conf d / total)%Qc) reps)
    with (map Fin (map (fun d => conf d / total)%Qc reps))
    by (rewrite map_map; reflexivity).
  rewrite sum_Fin, Qsum_div. fold total.
  f_equal. unfold Qcdiv. apply Qcmult_inv_r. exact H.
Qed.

(** The code's average of a column is the specification's weighted sum. *)
Lemma np_average_spec (v : detection -> Qc) :
  total <> 0%Qc ->
  np_average (column v reps) (normalized_weights reps)
  = Ok (Fin (spec_weighted v reps)).
Proof.
  intro H. unfold np_average.
  rewrite weights_sum_one by exact H.
  replace (eqb (Fin 1%Qc) (Fin 0%Qc)) with false by reflexivity.
  rewrite normalized_weights_finite by exact H.
  unfold column. rewrite combine_map_same, map_map. simpl.
  replace (map (fun x => Fin (v x * (conf x / total))%Qc) reps)
    with (map Fin (map (fun d => (conf d / total) * v d)%Qc reps)).
  - rewrite sum_Fin. f_equal. rewrite div_Fin by discriminate.
    f_equal. unfold spec_weighted. fold total. field. discriminate.
  - rewrite map_map. apply map_ext. intro d. f_equal. ring.
Qed.

End Normalized.

(** *** A zero sum of confidences *)

Lemma signed_inf_not_finite (c : Qc) : is_finite (signed_inf c) = false.
Proof. unfold signed_inf. destruct (c ?= 0)%Qc; reflexivity. Qed.

Lemma add_not_finite (x y : npfloat) :
  is_finite x = false -> is_finite (add x y) = false.
Proof. destruct x, y; simpl; intro H; (discriminate || reflexivity). Qed.

Lemma sum_not_finite (x : npfloat) (l : list npfloat) :
  is_finite x = false -> is_finite (sum (x :: l)) = false.
Proof. intro H. apply add_not_finite. exact H. Qed.

Lemma div_not_finite (x y : npfloat) :
  is_finite x = false -> is_finite y = false -> div x y = NaN.
Proof. destruct x, y; simpl; intros Hx Hy; (discriminate || reflexivity). Qed.

Lemma not_finite_nonzero (x : npfloat) :
  is_finite x = false -> eqb x (Fin 0%Qc) = false.
Proof. destruct x; simpl; intro H; (discriminate || reflexivity). Qed.

(** A confidence times its own weight [c / 0] is never finite. *)
Lemma mul_signed_inf_not_finite (c : Qc) :
  is_finite (mul (Fin c) (signed_inf c)) = false.
Proof.
  destruct (c ?= 0)%Qc eqn:E; unfold signed_inf; rewrite E;
    cbn [mul flip]; unfold signed_inf; rewrite ?E; reflexivity.
Qed.

Lemma normalized_weights_zero (reps : list detection) :
  Qsum (map conf reps) = 0%Qc ->
  normalized_weights reps = map (fun d => signed_inf (conf d)) reps.
Proof.
  intro H. unfold normalized_weights. rewrite column_Fin, sum_Fin, H.
  rewrite !map_map. apply map_ext. intro d. reflexivity.
Qed.

(** With a zero sum no average raises, and the averaged confidence is NaN. *)
Lemma np_average_zero_sum (v : detection -> Qc) (d : detection)
  (reps : list detection) :
  Qsum (map conf (d :: reps)) = 0%Qc ->
  exists x, np_average (column v (d :: reps)) (normalized_weights (d :: reps))
            = Ok x.
Proof.
  intro H. unfold np_average. rewrite normalized_weights_zero by exact H.
  cbn [map]. rewrite not_finite_nonzero.
  - eexists. reflexivity.
  - apply sum_not_finite, signed_inf_not_finite.
Qed.

Lemma np_average_conf_zero_sum (d : detection) (reps : list detection) :
  Qsum (map conf (d :: reps)) = 0%Qc ->
  np_average (column conf (d :: reps)) (normalized_weights (d :: reps))
  = Ok NaN.
Proof.
  intro H. unfold np_average. rewrite normalized_weights_zero by exact H.
  cbn [map column combine fst snd]. rewrite not_finite_nonzero.
  - f_equal. apply div_not_finite.
    + apply sum_not_finite, mul_signed_inf_not_finite.
    + apply sum_not_finite, signed_inf_not_finite.
  - apply sum_not_finite, signed_inf_not_finite.
Qed.

Lemma geb_Fin (a b : Qc) : geb (Fin a) (Fin b) = Qc_geb a b.
Proof. unfold geb, ltb, Qc_geb. destruct (a ?= b)%Qc; reflexivity. Qed.

Lemma average_row_nonzero (args : Namespace) (reps : list detection) :
  Qsum (map conf reps) <> 0%Qc ->
  average_row args reps
  = Ok (if Qc_geb (spec_weighted conf reps) (conf_threshold args)
        then Some [spec_row reps] else None).
Proof.
  intro H. unfold average_row.
  rewrite !np_average_spec by exact H. cbn [bind].
  rewrite geb_Fin.
  destruct (Qc_geb _ _); reflexivity.
Qed.

Lemma average_row_zero (args : Namespace) (d : detection)
  (reps : list detection) :
  Qsum (map conf (d :: reps)) = 0%Qc ->
  average_row args (d :: reps) = Ok None.
Proof.
  intro H. unfold average_row.
  destruct (np_average_zero_sum x_min d reps H) as [b0 ->].
  destruct (np_average_zero_sum y_min d reps H) as [b1 ->].
  destruct (np_average_zero_sum x_max d reps H) as [b2 ->].
  destruct (np_average_zero_sum y_max d reps H) as [b3 ->].
  rewrite (np_average_conf_zero_sum d reps H). reflexivity.
Qed.

(** ** The three ways through the smoothing step *)

Lemma len_nil_iff {A : Type} (l : list A) : (0 <? len l) = false <-> l = [].
Proof.
  unfold len. destruct l; simpl; split; intro H; try reflexivity;
    try discriminate.
Qed.

Lemma len_pos {A : Type} (l : list A) : l <> [] -> (0 <? len l) = true.
Proof.
  intro H. destruct (0 <? len l) eqn:E; [reflexivity|].
  apply len_nil_iff in E. contradiction.
Qed.

Lemma evict_oldest_tl (h : detection_history_t) : evict_oldest h = tl h.
Proof. destruct h; reflexivity. Qed.

Lemma filtered_set_guard (args : Namespace)
  (detections : list (list detection)) :
  filtered_set args detections <> [] ->
  (0 <? len detections) && (0 <? len (nth 0 detections [])) = true.
Proof.
  unfold filtered_set. intro H.
  destruct detections as [|d0 rest]; simpl in *; [contradiction|].
  destruct d0; simpl in *; [contradiction|reflexivity].
Qed.

(** A frame without a qualifying detection only evicts. *)
Lemma smooth_empty (args : Namespace) (detections : list (list detection))
  (h : detection_history_t) :
  filtered_set args detections = [] ->
  smooth args detections h = (evict_oldest h, Ok None).
Proof.
  unfold filtered_set, smooth. intro H.
  destruct ((0 <? len detections) && (0 <? len (nth 0 detections [])));
    [|reflexivity].
  rewrite H. reflexivity.
Qed.

(** Smoothing switched off: the filtered set goes to the renderer as it is. *)
Lemma smooth_disabled (args : Namespace) (detections : list (list detection))
  (h : detection_history_t) :
  smooth_frames args <= 1 ->
  filtered_set args detections <> [] ->
  smooth args detections h
  = (h, Ok (Some (map tensor_of (filtered_set args detections)))).
Proof.
  intros HW H. unfold smooth.
  rewrite (filtered_set_guard _ _ H). fold (filtered_set args detections).
  rewrite (len_pos _ H).
  destruct (1 <? smooth_frames args) eqn:E; [|reflexivity].
  apply Z.ltb_lt in E. lia.
Qed.

(** Smoothing switched on, and a qualifying detection in the frame. *)
Lemma smooth_enabled (args : Namespace) (detections : list (list detection))
  (h : detection_history_t) :
  1 < smooth_frames args ->
  filtered_set args detections <> [] ->
  smooth args detections h
  = let h2 := push_evicting args (filtered_set args detections) h in
    (h2,
     if 2 <=? len h2 then
       match representatives h2 with
       | [] => Ok None
       | _ :: _ => average_row args (representatives h2)
       end
     else Ok (Some (map tensor_of (filtered_set args detections)))).
Proof.
  intros HW H. unfold smooth.
  rewrite (filtered_set_guard _ _ H). fold (filtered_set args detections).
  rewrite (len_pos _ H).
  apply Z.ltb_lt in HW. rewrite HW.
  fold (push_evicting args (filtered_set args detections) h). cbv zeta.
  destruct (2 <=? len _); [|reflexivity].
  destruct (representatives _); reflexivity.
Qed.

(** The history update alone. *)
Lemma smooth_history (args : Namespace) (detections : list (list detection))
  (h : detection_history_t) :
  fst (smooth args detections h)
  = match filtered_set args detections with
    | [] => tl h
    | _ :: _ =>
        if 1 <? smooth_frames args
        then push_evicting args (filtered_set args detections) h
        else h
    end.
Proof.
  destruct (filtered_set args detections) as [|d l] eqn:E.
  - rewrite smooth_empty by exact E. apply evict_oldest_tl.
  - assert (N : filtered_set args detections <> [])
      by (rewrite E; discriminate).
    destruct (1 <? smooth_frames args) eqn:W.
    + apply Z.ltb_lt in W. rewrite smooth_enabled by assumption.
      cbv zeta. rewrite E. reflexivity.
    + apply Z.ltb_ge in W. rewrite smooth_disabled by assumption. reflexivity.
Qed.

(** *** The bound on the history *)

Lemma len_tl {A : Type} (l : list A) : len (tl l) <= len l.
Proof. unfold len. destruct l; cbn [tl List.length]; lia. Qed.

Lemma len_tl_app1 {A : Type} (l : list A) (x : A) : len (tl (l ++ [x])) = len l.
Proof.
  unfold len. destruct l; cbn [tl app List.length]; [reflexivity|].
  rewrite length_app. cbn [List.length]. lia.
Qed.

Lemma push_evicting_bound (args : Namespace) (e : list detection)
  (h : detection_history_t) :
  len h <= smooth_frames args ->
  len (push_evicting args e h) <= smooth_frames args.
Proof.
  intro H. unfold push_evicting. cbv zeta.
  destruct (smooth_frames args <? len (h ++ [e])) eqn:E.
  - rewrite len_tl_app1. exact H.
  - apply Z.ltb_ge in E. exact E.
Qed.

Lemma smooth_bound (args : Namespace) (detections : list (list detection))
  (h : detection_history_t) :
  len h <= smooth_frames args ->
  len (fst (smooth args detections h)) <= smooth_frames args.
Proof.
  intro H. rewrite smooth_history.
  destruct (filtered_set args detections).
  - pose proof (len_tl h). lia.
  - destruct (1 <? smooth_frames args).
    + apply push_evicting_bound. exact H.
    + exact H.
Qed.

Lemma run_history_bound (args : Namespace)
  (inputs : list (list (list detection))) :
  forall h, len h <= smooth_frames args ->
            len (run_history args inputs h) <= smooth_frames args.
Proof.
  induction inputs as [|d rest IH]; intros h H; simpl.
  - exact H.
  - apply IH. apply smooth_bound. exact H.
Qed.

Lemma run_history_app (args : Namespace)
  (xs ys : list (list (list detection))) (h : detection_history_t) :
  run_history args (xs ++ ys) h = run_history args ys (run_history args xs h).
Proof. revert h. induction xs as [|x xs IH]; intro h; simpl; auto. Qed.

(** ** The representative of a history entry *)

Lemma argmax_from_spec (dflt : Qc) (l : list Qc) :
  forall (pre : list Qc) (best : Qc) (best_idx : nat),
    (best_idx < List.length pre)%nat ->
    nth best_idx pre dflt = best ->
    (forall x, In x pre -> (x <= best)%Qc) ->
    let k := argmax_from best best_idx (List.length pre) l in
    (k < List.length (pre ++ l))%nat /\
    forall x, In x (pre ++ l) -> (x <= nth k (pre ++ l) dflt)%Qc.
Proof.
  induction l as [|x t IH]; intros pre best best_idx Hlt Hnth Hmax;
    cbn [argmax_from].
  - rewrite app_nil_r. split; [exact Hlt|]. rewrite Hnth. exact Hmax.
  - assert (E : pre ++ x :: t = (pre ++ [x]) ++ t)
      by (rewrite <- app_assoc; reflexivity).
    assert (L : S (List.length pre) = List.length (pre ++ [x]))
      by (rewrite length_app; cbn [List.length]; lia).
    rewrite E, L.
    destruct (x ?= best)%Qc eqn:C.
    + apply IH.
      * rewrite <- L. lia.
      * rewrite app_nth1 by exact Hlt. exact Hnth.
      * intros y Hy. apply in_app_or in Hy. destruct Hy as [Hy|[<-|[]]].
        -- apply Hmax. exact Hy.
        -- apply Qceq_alt in C. rewrite C. apply Qcle_refl.
    + apply IH.
      * rewrite <- L. lia.
      * rewrite app_nth1 by exact Hlt. exact Hnth.
      * intros y Hy. apply in_app_or in Hy. destruct Hy as [Hy|[<-|[]]].
        -- apply Hmax. exact Hy.
        -- apply Qclt_alt in C. apply Qclt_le_weak. exact C.
    + apply (IH (pre ++ [x]) x (List.length pre)).
      * rewrite <- L. lia.
      * rewrite app_nth2 by lia. rewrite Nat.sub_diag. reflexivity.
      * intros y Hy. apply in_app_or in Hy. destruct Hy as [Hy|[<-|[]]].
        -- apply Qcgt_alt in C. apply Qcle_trans with best.
           ++ apply Hmax. exact Hy.
           ++ apply Qclt_le_weak. exact C.
        -- apply Qcle_refl.
Qed.

Lemma np_argmax_spec (dflt x : Qc) (t : list Qc) :
  let k := np_argmax (x :: t) in
  (k < List.length (x :: t))%nat /\
  forall y, In y (x :: t) -> (y <= nth k (x :: t) dflt)%Qc.
Proof.
  cbn [np_argmax].
  apply (argmax_from_spec dflt t [x] x 0%nat).
  - cbn [List.length]. lia.
  - reflexivity.
  - intros y [<-|[]]. apply Qcle_refl.
Qed.

(** The row picked for a non-empty entry is one of its rows, and none of
    its rows has a higher confidence. *)
Lemma best_of_highest (d0 : detection) (rest : list detection) :
  exists r, best_of (d0 :: rest) = [r] /\ highest_confidence (d0 :: rest) r.
Proof.
  eexists. split; [reflexivity|].
  pose proof (np_argmax_spec (conf d0) (conf d0) (map conf rest)) as [Hk Hmax].
  change (conf d0 :: map conf rest) with (map conf (d0 :: rest)) in *.
  rewrite length_map in Hk.
  split.
  - apply nth_In. exact Hk.
  - intros d' Hd'. rewrite <- (map_nth conf). apply Hmax.
    apply in_map. exact Hd'.
Qed.

(** ** The invariant of the history *)

Lemma Forall_tl {A : Type} (P : A -> Prop) (l : list A) :
  Forall P l -> Forall P (tl l).
Proof. intro H. destruct H; [constructor|assumption]. Qed.

Lemma filtered_set_ok (args : Namespace) (detections : list (list detection)) :
  Forall (fun d => (conf_threshold args <= conf d)%Qc)
         (filtered_set args detections).
Proof.
  unfold filtered_set. apply Forall_forall. intros d Hd.
  apply filter_In in Hd. destruct Hd as [_ Hd].
  apply Qc_geb_le. exact Hd.
Qed.

Lemma push_evicting_ok (args : Namespace) (e : list detection)
  (h : detection_history_t) :
  entry_ok (conf_threshold args) e ->
  history_ok (conf_threshold args) h ->
  history_ok (conf_threshold args) (push_evicting args e h).
Proof.
  intros He Hh. unfold push_evicting. cbv zeta.
  assert (H1 : history_ok (conf_threshold args) (h ++ [e])).
  { apply Forall_app. split; [exact Hh|]. constructor; [exact He|constructor]. }
  destruct (smooth_frames args <? len (h ++ [e])).
  - apply Forall_tl. exact H1.
  - exact H1.
Qed.

Lemma smooth_ok (args : Namespace) (detections : list (list detection))
  (h : detection_history_t) :
  history_ok (conf_threshold args) h ->
  history_ok (conf_threshold args) (fst (smooth args detections h)).
Proof.
  intro H. rewrite smooth_history.
  destruct (filtered_set args detections) as [|d l] eqn:E.
  - apply Forall_tl. exact H.
  - destruct (1 <? smooth_frames args); [|exact H].
    apply push_evicting_ok; [|exact H].
    split; [discriminate|]. rewrite <- E. apply filtered_set_ok.
Qed.

Lemma run_history_ok (args : Namespace)
  (inputs : list (list (list detection))) :
  forall h, history_ok (conf_threshold args) h ->
            history_ok (conf_threshold args) (run_history args inputs h).
Proof.
  induction inputs as [|d rest IH]; intros h H; simpl.
  - exact H.
  - apply IH. apply smooth_ok. exact H.
Qed.

(** Under the invariant every representative is at or above the threshold,
    and there is one per entry. *)
Lemma representatives_ok (threshold : Qc) (h : detection_history_t) :
  history_ok threshold h ->
  List.length (representatives h) = List.length h /\
  Forall (fun d => (threshold <= conf d)%Qc) (representatives h).
Proof.
  induction 1 as [|e h [Hne He] Hh [IHlen IHall]]; [split; constructor|].
  destruct e as [|d0 rest]; [contradiction|].
  destruct (best_of_highest d0 rest) as [r [Hr [Hin _]]].
  unfold representatives in *. cbn [flat_map]. rewrite Hr. cbn [app].
  split.
  - cbn [List.length]. rewrite IHlen. reflexivity.
  - constructor; [|exact IHall].
    rewrite Forall_forall in He. apply He. exact Hin.
Qed.

Lemma Qsum_pos (l : list Qc) :
  l <> [] -> Forall (fun c => (0 < c)%Qc) l -> (0 < Qsum l)%Qc.
Proof.
  intros Hne H. induction H as [|c l Hc Hl IH]; [contradiction|].
  cbn [Qsum fold_right]. fold (Qsum l).
  destruct l as [|c' l'].
  - cbn [Qsum fold_right]. rewrite Qcplus_0_r. exact Hc.
  - assert (P : (0 < Qsum (c' :: l'))%Qc) by (apply IH; discriminate).
    apply Qclt_le_trans with c; [exact Hc|].
    rewrite <- (Qcplus_0_r c) at 1.
    apply Qcplus_le_compat; [apply Qcle_refl|].
    apply Qclt_le_weak. exact P.
Qed.

(** ** The renderer *)

Lemma clamp_range (hi x : Z) : 0 <= hi -> 0 <= clamp hi x <= hi.
Proof. unfold clamp. lia. Qed.

Section Renderer.

Variable image : Type.
Variable getTextSize : text -> (Z * Z) * Z.
Implicit Types (f : frame image) (r : row).

Lemma pixel_box_in_frame f r (x1 y1 x2 y2 : Z) :
  1 <= snd (shape f) -> 1 <= fst (shape f) ->
  pixel_box f r = Ok ((x1, y1), (x2, y2)) ->
  (0 <= x1 <= snd (shape f) - 1 /\ 0 <= y1 <= fst (shape f) - 1) /\
  (0 <= x2 <= snd (shape f) - 1 /\ 0 <= y2 <= fst (shape f) - 1).
Proof.
  intros Hw Hh. unfold pixel_box. cbv zeta.
  destruct (to_int (mul (r_x_min r) _)) as [a|]; [|discriminate].
  destruct (to_int (mul (r_y_min r) _)) as [b|]; [|discriminate].
  destruct (to_int (mul (r_x_max r) _)) as [c|]; [|discriminate].
  destruct (to_int (mul (r_y_max r) _)) as [d|]; [|discriminate].
  cbn [bind]. intro E. injection E as <- <- <- <-.
  repeat split; apply clamp_range; lia.
Qed.

Lemma to_int_finite (x : npfloat) (q : Qc) :
  is_finite x = true -> exists z, to_int (mul x (Fin q)) = Ok z.
Proof.
  destruct x; try discriminate. intros _. cbn [mul to_int].
  eexists. reflexivity.
Qed.

Lemma pixel_box_finite f r :
  box_finite r = true -> exists corners, pixel_box f r = Ok corners.
Proof.
  unfold box_finite. intro H.
  apply andb_prop in H. destruct H as [H H4].
  apply andb_prop in H. destruct H as [H H3].
  apply andb_prop in H. destruct H as [H1 H2].
  unfold pixel_box. cbv zeta.
  destruct (to_int_finite _ (Qc_of_Z (snd (shape f))) H1) as [a ->].
  destruct (to_int_finite _ (Qc_of_Z (fst (shape f))) H2) as [b ->].
  destruct (to_int_finite _ (Qc_of_Z (snd (shape f))) H3) as [c ->].
  destruct (to_int_finite _ (Qc_of_Z (fst (shape f))) H4) as [d ->].
  cbn [bind]. eexists. reflexivity.
Qed.

Lemma draw_detection_finite f r (threshold : Qc) :
  box_finite r = true ->
  exists f', draw_detection image getTextSize f r threshold = Ok f'.
Proof.
  intro H. unfold draw_detection.
  destruct (ltb (r_conf r) (Fin threshold)); [eexists; reflexivity|].
  destruct (pixel_box_finite f r H) as [corners ->]. cbn [bind].
  eexists. reflexivity.
Qed.

Lemma draw_detections_finite (rows : list row) (threshold : Qc) :
  forallb box_finite rows = true ->
  forall f,
    exists f', draw_detections image getTextSize f rows threshold = Ok f'.
Proof.
  induction rows as [|r rows IH]; intros H f; cbn [draw_detections].
  - eexists. reflexivity.
  - cbn [forallb] in H. apply andb_prop in H. destruct H as [Hr Hrows].
    destruct (draw_detection_finite f r threshold Hr) as [f1 ->]. cbn [bind].
    apply IH. exact Hrows.
Qed.

End Renderer.

Lemma tensor_of_finite (l : list detection) :
  forallb box_finite (map tensor_of l) = true.
Proof.
  induction l as [|d l IH]; [reflexivity|].
  cbn [map forallb]. rewrite IH. reflexivity.
Qed.

(** The smoothing step never raises, and what it hands to the renderer has
    finite box coordinates. *)
Lemma smooth_returns (args : Namespace) (detections : list (list detection))
  (h : detection_history_t) :
  exists out, snd (smooth args detections h) = Ok out /\
              match out with
              | Some rows => forallb box_finite rows = true
              | None => True
              end.
Proof.
  destruct (filtered_set args detections) as [|d l] eqn:E.
  - rewrite smooth_empty by exact E. exists None. split; [reflexivity|exact I].
  - assert (N : filtered_set args detections <> [])
      by (rewrite E; discriminate).
    destruct (Z_lt_le_dec 1 (smooth_frames args)) as [W|W].
    + rewrite smooth_enabled by assumption. cbv zeta. cbn [snd].
      destruct (2 <=? len _).
      * destruct (representatives _) as [|r reps] eqn:R.
        -- exists None. split; [reflexivity|exact I].
        -- destruct (Qc_eq_dec (Qsum (map conf (r :: reps))) 0%Qc) as [Z|NZ].
           ++ rewrite average_row_zero by exact Z.
              exists None. split; [reflexivity|exact I].
           ++ rewrite average_row_nonzero by exact NZ.
              eexists. split; [reflexivity|].
              destruct (Qc_geb _ _); [reflexivity|exact I].
      * eexists. split; [reflexivity|]. apply tensor_of_finite.
    + rewrite smooth_disabled by assumption. cbn [snd].
      eexists. split; [reflexivity|]. apply tensor_of_finite.
Qed.

(** ** The generator *)

Section Generator.

Variable image : Type.
Variable getTextSize : text -> (Z * Z) * Z.
Variable tensor : Type.
Variable predictions_t : Type.
Variable preprocess_frame : image -> Z -> tensor.
Variable model : tensor -> predictions_t.
Variable decode_predictions :
  predictions_t -> Qc -> Qc -> list (list detection).
Variable imencode : frame image -> option string.

Let prepare :=
  annotate image getTextSize tensor predictions_t preprocess_frame model
           decode_predictions.
Let loop :=
  frames_loop image getTextSize tensor predictions_t preprocess_frame model
              decode_predictions imencode.
Let failures :=
  encode_failures image getTextSize tensor predictions_t preprocess_frame
                  model decode_predictions imencode.

(** Annotating a frame never raises. *)
Lemma annotate_returns (args : Namespace) (st : state) (fr : frame image) :
  exists st' display_frame, prepare args st fr = (st', Ok display_frame).
Proof.
  unfold prepare, annotate. cbv zeta.
  destruct (smooth_returns args
              (decode_predictions
                 (model (preprocess_frame (pixels fr) (image_size args)))
                 (conf_threshold args) (nms_threshold args))
              (detection_history st)) as [out [Hout Hfin]].
  destruct (smooth _ _ _) as [h outcome]. cbn [snd] in Hout. subst outcome.
  cbn [bind].
  destruct out as [rows|].
  - destruct (draw_detections_finite image getTextSize rows
                (conf_threshold args) Hfin fr) as [f' ->].
    cbn [bind]. do 2 eexists. reflexivity.
  - do 2 eexists. reflexivity.
Qed.

Lemma frames_loop_counts (args : Namespace) (frames : list (frame image)) :
  forall st,
    let '(chunks, e, _) := loop args true frames st in
    e = Finished /\
    (List.length chunks + failures args frames st
     = List.length frames)%nat /\
    Forall (fun c => exists frame_bytes, c = chunk frame_bytes) chunks.
Proof.
  unfold loop, failures.
  induction frames as [|fr rest IH]; intro st;
    cbn [frames_loop encode_failures negb].
  - repeat split. constructor.
  - unfold iteration.
    destruct (annotate_returns args st fr) as [st' [df E]].
    unfold prepare in E. rewrite E.
    specialize (IH st').
    destruct (imencode df) as [buffer|]; cbv iota;
      destruct (frames_loop _ _ _ _ _ _ _ _ args true rest st')
        as [[cs e] st''];
      destruct IH as [He [Hn Hc]].
    + repeat split; [exact He|cbn [List.length]; lia|].
      constructor; [eexists; reflexivity|assumption].
    + repeat split; [exact He|cbn [List.length]; lia|exact Hc].
Qed.

End Generator.

(** ** Properties *)

Lemma averaged_confidence_passes_nonzero (args : Namespace)
  (reps : list detection) :
  Qsum (map conf reps) <> 0%Qc ->
  averaged_confidence_passes args reps
  = Qc_geb (spec_weighted conf reps) (conf_threshold args).
Proof.
  intro H. unfold averaged_confidence_passes.
  destruct (Qsum (map conf reps) ?= 0)%Qc eqn:E; try reflexivity.
  exfalso. exact (Qc_compare_neq _ _ H E).
Qed.

Lemma averaged_confidence_passes_zero (args : Namespace)
  (reps : list detection) :
  Qsum (map conf reps) = 0%Qc -> averaged_confidence_passes args reps = false.
Proof.
  intro H. unfold averaged_confidence_passes. rewrite H.
  rewrite Qc_compare_refl. reflexivity.
Qed.

(** The averaging branch, whatever the sum of the confidences. *)
Lemma averaging_branch (args : Namespace) (h : detection_history_t) :
  match representatives h with
  | [] => Ok None
  | _ :: _ => average_row args (representatives h)
  end = Ok (spec_emission args h).
Proof.
  unfold spec_emission.
  destruct (representatives h) as [|r reps] eqn:R.
  - reflexivity.
  - destruct (Qc_eq_dec (Qsum (map conf (r :: reps))) 0%Qc) as [Z|NZ].
    + rewrite average_row_zero by exact Z.
      rewrite averaged_confidence_passes_zero by exact Z. reflexivity.
    + rewrite average_row_nonzero by exact NZ.
      rewrite averaged_confidence_passes_nonzero by exact NZ. reflexivity.
Qed.

Lemma smooth_averages (args : Namespace) (detections : list (list detection))
  (h : detection_history_t) :
  1 < smooth_frames args ->
  filtered_set args detections <> [] ->
  2 <= len (fst (smooth args detections h)) ->
  snd (smooth args detections h)
  = Ok (spec_emission args (fst (smooth args detections h))).
Proof.
  intros HW HF. rewrite smooth_enabled by assumption. cbv zeta. cbn [fst snd].
  intro H2. apply Z.leb_le in H2. rewrite H2. apply averaging_branch.
Qed.

Lemma representatives_highest (h : detection_history_t) :
  Forall2 highest_confidence (filter nonemptyb h) (representatives h).
Proof.
  induction h as [|e h IH]; [constructor|].
  unfold representatives. cbn [filter flat_map].
  destruct e as [|d0 rest]; cbn [nonemptyb].
  - exact IH.
  - destruct (best_of_highest d0 rest) as [r [-> Hr]]. cbn [app].
    constructor; assumption.
Qed.

(** A scenario of the specification: after nine frames without a
    detection, a first hit at 0.9 leaves one entry in the history and is
    drawn as it is. *)
Example first_hit_is_raw :
  let h := run_history Sample.args (repeat Sample.miss 9) [] in
  let detections := Sample.hit (decimal 9 10) in
  len (fst (smooth Sample.args detections h)) = 1 /\
  snd (smooth Sample.args detections h)
  = Ok (Some [tensor_of (Sample.det (decimal 9 10))]).
Proof. vm_compute. split; reflexivity. Qed.

(** C2. For a window size [W >= 0], a frame's update of the history keeps
    its length at most [W], and so does every run from the empty history. *)
Theorem history_length_bounded (args : Namespace) :
  0 <= smooth_frames args ->
  (forall detections h,
      len h <= smooth_frames args ->
      len (fst (smooth args detections h)) <= smooth_frames args) /\
  (forall inputs, len (run_history args inputs []) <= smooth_frames args).
Proof.
  intro HW. split.
  - intros detections h. apply smooth_bound.
  - intro inputs. apply run_history_bound. exact HW.
Qed.

Lemma history_length_bounded_witness :
  len (run_history Sample.args
         [Sample.hit (decimal 9 10); Sample.miss; Sample.hit (decimal 5 10)] [])
  <= 10.
Proof.
  destruct (history_length_bounded Sample.args) as [_ H].
  - vm_compute. discriminate.
  - apply H.
Defined.

(** C3, as stated, fails: after three hits a miss leaves two confident
    entries in the history, and the frame emits nothing. *)
Lemma averages_on_every_frame_fails : ~ averages_on_every_frame.
Proof.
  intro H.
  pose (inputs := [Sample.hit (decimal 9 10); Sample.hit (decimal 9 10);
                   Sample.hit (decimal 9 10)]).
  specialize (H Sample.args inputs Sample.miss eq_refl). cbv zeta in H.
  assert (H2 : 2 <= len (fst (smooth Sample.args Sample.miss
                                (run_history Sample.args inputs []))))
    by (vm_compute; discriminate).
  specialize (H H2). vm_compute in H. discriminate H.
Qed.

Lemma run_misses_length (args : Namespace)
  (misses : list (list (list detection))) :
  Forall (fun d => filtered_set args d = []) misses ->
  forall h, List.length (run_history args misses h)
            = (List.length h - List.length misses)%nat.
Proof.
  induction 1 as [|d misses Hd Hrest IH]; intro h; cbn [run_history].
  - cbn [List.length]. lia.
  - rewrite IH, smooth_history, Hd. cbn [List.length].
    destruct h; cbn [tl List.length]; lia.
Qed.

(** C4. A frame with an empty filtered set drops the oldest history entry,
    if there is one, and appends nothing; after any run, [W + 1] such
    frames in a row leave the history empty. *)
Theorem misses_drain_history (args : Namespace) :
  1 < smooth_frames args ->
  (forall detections h,
      filtered_set args detections = [] ->
      smooth args detections h = (tl h, Ok None)) /\
  (forall inputs misses,
      Forall (fun d => filtered_set args d = []) misses ->
      List.length misses = Z.to_nat (smooth_frames args + 1) ->
      run_history args (inputs ++ misses) [] = []).
Proof.
  intro HW. split.
  - intros detections h E. rewrite smooth_empty by exact E.
    rewrite evict_oldest_tl. reflexivity.
  - intros inputs misses Hm Hlen.
    rewrite run_history_app. apply length_zero_iff_nil.
    rewrite run_misses_length by exact Hm.
    assert (B : len (run_history args inputs []) <= smooth_frames args)
      by (apply run_history_bound; unfold len; cbn [List.length]; lia).
    unfold len in B. lia.
Qed.

Lemma misses_drain_history_witness :
  run_history Sample.args
    ([Sample.hit (decimal 9 10); Sample.hit (decimal 5 10)]
     ++ repeat Sample.miss 11) [] = [].
Proof.
  destruct (misses_drain_history Sample.args) as [_ H].
  - reflexivity.
  - apply H.
    + repeat constructor.
    + reflexivity.
Defined.

(** C5, as stated, fails: with [W = 1] a frame with two qualifying
    detections hands both to the renderer, not only the better one. *)
Lemma disabled_emits_single_best_fails : ~ disabled_emits_single_best.
Proof.
  intro H.
  destruct (H Sample.args_off
              [[Sample.det (decimal 5 10); Sample.det (decimal 9 10)]] [])
    as [d [_ E]].
  - vm_compute. discriminate.
  - vm_compute. discriminate.
  - apply (f_equal snd) in E. vm_compute in E. discriminate E.
Qed.

Lemma run_history_disabled (args : Namespace)
  (inputs : list (list (list detection))) :
  smooth_frames args <= 1 -> run_history args inputs [] = [].
Proof.
  intro HW. induction inputs as [|d rest IH]; cbn [run_history]; [reflexivity|].
  rewrite smooth_history.
  destruct (filtered_set args d); [exact IH|].
  destruct (1 <? smooth_frames args) eqn:E; [|exact IH].
  apply Z.ltb_lt in E. lia.
Qed.

(** C5, amended.  With [W <= 1] nothing is appended to the history and
    nothing is averaged: a non-empty filtered set goes to the renderer
    whole and unchanged, with the history untouched; an empty one gives
    no detection and applies the usual eviction; the history of a run from
    the empty history stays empty. *)
Theorem disabled_passes_filtered_set (args : Namespace) :
  smooth_frames args <= 1 ->
  (forall detections h,
      filtered_set args detections <> [] ->
      smooth args detections h
      = (h, Ok (Some (map tensor_of (filtered_set args detections))))) /\
  (forall detections h,
      filtered_set args detections = [] ->
      smooth args detections h = (tl h, Ok None)) /\
  (forall inputs, run_history args inputs [] = []).
Proof.
  intro HW. split; [|split].
  - intros detections h N. apply smooth_disabled; assumption.
  - intros detections h E. rewrite smooth_empty by exact E.
    rewrite evict_oldest_tl. reflexivity.
  - intro inputs. apply run_history_disabled. exact HW.
Qed.

Lemma disabled_passes_filtered_set_witness :
  let detections := [[Sample.det (decimal 5 10); Sample.det (decimal 9 10)]] in
  smooth Sample.args_off detections []
  = ([], Ok (Some (map tensor_of (filtered_set Sample.args_off detections)))).
Proof.
  intro detections.
  destruct (disabled_passes_filtered_set Sample.args_off) as [H _].
  - vm_compute. discriminate.
  - apply H. vm_compute. discriminate.
Defined.

Lemma Qsum_all_zero (l : list detection) :
  (forall r, In r l -> conf r = 0%Qc) -> Qsum (map conf l) = 0%Qc.
Proof.
  induction l as [|d l IH]; intro H; cbn [map Qsum fold_right]; [reflexivity|].
  fold (Qsum (map conf l)).
  rewrite (H d) by (left; reflexivity).
  rewrite IH by (intros r Hr; apply H; right; exact Hr).
  apply Qcplus_0_r.
Qed.

(** C6, as stated, fails: the normalization is not guarded.  With threshold
    0, a frame at confidence 0 after another one divides 0 by 0 and the
    weights are NaN. *)
Lemma normalization_is_guarded_fails : ~ normalization_is_guarded.
Proof.
  intro H.
  destruct (H Sample.args_zero (Sample.hit 0%Qc) [[Sample.det 0%Qc]])
    as [F _].
  - reflexivity.
  - vm_compute. discriminate.
  - intros r Hr. vm_compute in Hr.
    destruct Hr as [<-|[<-|[]]]; reflexivity.
  - vm_compute in F. inversion F as [|w l Hw _]. discriminate Hw.
Qed.

(** C6, amended.  When every representative has confidence 0 the division
    by the zero sum is carried out: every normalized weight is NaN.  No
    exception follows, and the step returns normally with no detection. *)
Theorem zero_confidences_no_detection (args : Namespace)
  (detections : list (list detection)) (h : detection_history_t) :
  1 < smooth_frames args ->
  2 <= len (fst (smooth args detections h)) ->
  (forall r, In r (representatives (fst (smooth args detections h))) ->
             conf r = 0%Qc) ->
  Forall (fun w => w = NaN)
         (normalized_weights (representatives (fst (smooth args detections h))))
  /\ snd (smooth args detections h) = Ok None.
Proof.
  intros HW H2 Hz.
  pose proof (Qsum_all_zero _ Hz) as Z. split.
  - rewrite normalized_weights_zero by exact Z.
    apply Forall_forall. intros w Hw. apply in_map_iff in Hw.
    destruct Hw as [d [<- Hd]]. rewrite (Hz d Hd). reflexivity.
  - destruct (filtered_set args detections) as [|d l] eqn:E.
    + rewrite smooth_empty by exact E. reflexivity.
    + assert (N : filtered_set args detections <> [])
        by (rewrite E; discriminate).
      rewrite smooth_averages by assumption. unfold spec_emission.
      rewrite averaged_confidence_passes_zero by exact Z. reflexivity.
Qed.

(** Threshold 0: a frame at confidence 0 after another one. *)
Lemma zero_confidences_no_detection_witness :
  let args := Sample.args_zero in
  let detections := Sample.hit 0%Qc in
  let h := [[Sample.det 0%Qc]] in
  filtered_set args detections <> [] /\
  Forall (fun w => w = NaN)
         (normalized_weights (representatives (fst (smooth args detections h))))
  /\ snd (smooth args detections h) = Ok None.
Proof.
  intros args detections h. split; [vm_compute; discriminate|].
  apply (zero_confidences_no_detection args detections h).
  - reflexivity.
  - vm_compute. discriminate.
  - intros r Hr. vm_compute in Hr.
    destruct Hr as [<-|[<-|[]]]; reflexivity.
Defined.

Lemma ltb_Fin (a b : Qc) : ltb (Fin a) (Fin b) = true <-> (a < b)%Qc.
Proof.
  unfold ltb. rewrite Qclt_alt.
  destruct (a ?= b)%Qc; split; intro H; (reflexivity || discriminate).
Qed.

Lemma Qc_geb_not_lt (a b : Qc) : Qc_geb a b = true <-> ~ (a < b)%Qc.
Proof.
  rewrite Qc_geb_le. split.
  - apply Qcle_not_lt.
  - apply Qcnot_lt_le.
Qed.

Section Drawing.

Variable image : Type.
Variable getTextSize : text -> (Z * Z) * Z.
Implicit Types (f : frame image) (d : detection).


Lemma draw_detection_draws f d (threshold : Qc) :
  ~ (conf d < threshold)%Qc ->
  exists corners,
    pixel_box f (tensor_of d) = Ok corners /\
    draw_detection image getTextSize f (tensor_of d) threshold
    = Ok (put (box_ops getTextSize (tensor_of d) corners) f).
Proof.
  intro H. unfold draw_detection.
  destruct (ltb (r_conf (tensor_of d)) (Fin threshold)) eqn:E.
  - exfalso. apply H. apply ltb_Fin. exact E.
  - destruct (pixel_box_finite image f (tensor_of d) eq_refl) as [corners P].
    exists corners. rewrite P. split; reflexivity.
Qed.

Lemma draw_detection_appends f (r : row) (threshold : Qc) f' :
  1 <= snd (shape f) -> 1 <= fst (shape f) ->
  draw_detection image getTextSize f r threshold = Ok f' ->
  shape f' = shape f /\
  exists ops, overlay f' = overlay f ++ ops /\
              Forall (outline_within (shape f)) ops.
Proof.
  intros Hw Hh. unfold draw_detection.
  destruct (ltb (r_conf r) (Fin threshold)).
  - intro E. injection E as <-. split; [reflexivity|].
    exists []. rewrite app_nil_r. split; [reflexivity|constructor].
  - destruct (pixel_box f r) as [[[x1 y1] [x2 y2]]|] eqn:P; [|discriminate].
    cbn [bind]. intro E. injection E as <-. split; [reflexivity|].
    eexists. split; [reflexivity|].
    unfold box_ops. destruct (getTextSize _) as [[tw th] bl].
    apply Forall_cons;
      [|apply Forall_cons; [|apply Forall_cons; [|apply Forall_nil]]].
    + intros _. exact (pixel_box_in_frame image f r x1 y1 x2 y2 Hw Hh P).
    + cbn [outline_within]. discriminate.
    + exact I.
Qed.

Lemma draw_detections_appends (rows : list row) (threshold : Qc) :
  forall f f',
    1 <= snd (shape f) -> 1 <= fst (shape f) ->
    draw_detections image getTextSize f rows threshold = Ok f' ->
    shape f' = shape f /\
    exists ops, overlay f' = overlay f ++ ops /\
                Forall (outline_within (shape f)) ops.
Proof.
  induction rows as [|r rows IH]; intros f f' Hw Hh; cbn [draw_detections].
  - intro E. injection E as <-. split; [reflexivity|].
    exists []. rewrite app_nil_r. split; [reflexivity|constructor].
  - destruct (draw_detection image getTextSize f r threshold) as [f1|] eqn:D;
      [|discriminate].
    cbn [bind]. intro E.
    destruct (draw_detection_appends f r threshold f1 Hw Hh D)
      as [S1 [ops1 [O1 F1]]].
    destruct (IH f1 f') as [S2 [ops2 [O2 F2]]];
      [rewrite S1; exact Hw|rewrite S1; exact Hh|exact E|].
    split; [congruence|].
    exists (ops1 ++ ops2). split.
    + rewrite O2, O1, app_assoc. reflexivity.
    + apply Forall_app. split; [exact F1|]. rewrite <- S1. exact F2.
Qed.

(** C9. On a frame of at least one pixel each way, the corners computed
    for any row lie within [0 .. frame_w - 1] and [0 .. frame_h - 1]; every
    detection, whatever its coordinates, has such corners, and they are the
    corners of the rectangle drawn for it; every box outline that a call of
    the renderer adds to the frame has its corners in that range. *)
Theorem box_corners_clamped f :
  1 <= snd (shape f) -> 1 <= fst (shape f) ->
  (forall r x1 y1 x2 y2,
      pixel_box f r = Ok ((x1, y1), (x2, y2)) ->
      (0 <= x1 <= snd (shape f) - 1 /\ 0 <= y1 <= fst (shape f) - 1) /\
      (0 <= x2 <= snd (shape f) - 1 /\ 0 <= y2 <= fst (shape f) - 1)) /\
  (forall d threshold,
      exists x1 y1 x2 y2,
        pixel_box f (tensor_of d) = Ok ((x1, y1), (x2, y2)) /\
        (~ (conf d < threshold)%Qc ->
         exists ops,
           draw_detection image getTextSize f (tensor_of d) threshold
           = Ok (put (Rectangle (x1, y1) (x2, y2) red 2 :: ops) f))) /\
  (forall rows threshold f',
      draw_detections image getTextSize f rows threshold = Ok f' ->
      exists ops, overlay f' = overlay f ++ ops /\
                  Forall (outline_within (shape f)) ops).
Proof.
  intros Hw Hh. split; [|split].
  - intros r x1 y1 x2 y2. apply pixel_box_in_frame; assumption.
  - intros d threshold.
    destruct (pixel_box_finite image f (tensor_of d) eq_refl)
      as [[[x1 y1] [x2 y2]] P].
    exists x1, y1, x2, y2. split; [exact P|].
    intro NL. destruct (draw_detection_draws f d threshold NL) as [c [Pc D]].
    rewrite P in Pc. injection Pc as <-. rewrite D.
    unfold box_ops. destruct (getTextSize _) as [[tw th] bl].
    eexists. reflexivity.
  - intros rows threshold f' D.
    apply (draw_detections_appends rows threshold f f' Hw Hh D).
Qed.

End Drawing.

Lemma box_corners_clamped_witness :
  exists x1 y1 x2 y2,
    pixel_box Sample.vga (tensor_of Sample.wide) = Ok ((x1, y1), (x2, y2)) /\
    (0 <= x1 <= 639 /\ 0 <= y1 <= 479) /\ (0 <= x2 <= 639 /\ 0 <= y2 <= 479).
Proof.
  destruct (box_corners_clamped unit Sample.text_size Sample.vga)
    as [Hrange [Hbox _]].
  - vm_compute. discriminate.
  - vm_compute. discriminate.
  - destruct (Hbox Sample.wide 0%Qc) as [x1 [y1 [x2 [y2 [P _]]]]].
    exists x1, y1, x2, y2. split; [exact P|].
    apply (Hrange _ _ _ _ _ P).
Defined.

(** A box reaching past both side edges is cut back to the frame. *)
Example wide_box_corners :
  pixel_box Sample.vga (tensor_of Sample.wide) = Ok ((0, 96), (639, 288)).
Proof. vm_compute. reflexivity. Qed.

(** Three frames, the second of which does not encode: two chunks, a
    normal end, three frames counted, and one entry left in the history
    (hit, miss, hit). *)
Example three_frames_one_bad :
  let '(chunks, e, st) :=
    Sample.stream [Sample.shot true; Sample.shot false; Sample.shot true] in
  chunks = [chunk "jpeg"; chunk "jpeg"] /\ e = Finished /\
  frame_count st = 3 /\ len (detection_history st) = 1.
Proof. vm_compute. repeat split. Qed.

(** C10. Every entry of a history reached from the empty one is a
    non-empty set of detections at or above the threshold, each frame's
    update keeps it so, and with a positive threshold the confidences
    summed by an averaging step over such a history have a positive sum. *)
Theorem history_entries_qualify (args : Namespace) :
  (forall detections h,
      history_ok (conf_threshold args) h ->
      history_ok (conf_threshold args) (fst (smooth args detections h))) /\
  (forall inputs, history_ok (conf_threshold args) (run_history args inputs []))
  /\
  ((0 < conf_threshold args)%Qc ->
   forall h,
     history_ok (conf_threshold args) h -> h <> [] ->
     exists s, sum (column conf (representatives h)) = Fin s /\ (0 < s)%Qc).
Proof.
  split; [|split].
  - intros detections h. apply smooth_ok.
  - intro inputs. apply run_history_ok. constructor.
  - intros Hpos h Hok Hne.
    destruct (representatives_ok _ h Hok) as [Hlen Hall].
    exists (Qsum (map conf (representatives h))). split.
    + rewrite column_Fin. apply sum_Fin.
    + apply Qsum_pos.
      * intro E. apply Hne. apply length_zero_iff_nil. rewrite <- Hlen.
        apply (f_equal (@List.length _)) in E. rewrite length_map in E.
        exact E.
      * apply Forall_map. revert Hall. apply Forall_impl. intros d Hd.
        apply Qclt_le_trans with (conf_threshold args); assumption.
Qed.

Lemma history_entries_qualify_witness :
  let h := run_history Sample.args
             [Sample.hit (decimal 9 10); Sample.hit (decimal 5 10)] [] in
  history_ok (conf_threshold Sample.args) h /\
  exists s, sum (column conf (representatives h)) = Fin s /\ (0 < s)%Qc.
Proof.
  intro h.
  destruct (history_entries_qualify Sample.args) as [_ [Hrun Hsum]].
  split; [apply Hrun|].
  apply Hsum.
  - reflexivity.
  - apply Hrun.
  - vm_compute. discriminate.
Defined.

(** ** More about the renderer *)

Lemma passes_tensor_of (threshold : Qc) (d : detection) :
  passes threshold (tensor_of d) = Qc_geb (conf d) threshold.
Proof.
  unfold passes, ltb, Qc_geb. cbn [tensor_of r_conf].
  destruct (conf d ?= threshold)%Qc; reflexivity.
Qed.

Lemma spec_row_tensor_of (reps : list detection) :
  spec_row reps = tensor_of (averaged_detection reps).
Proof. reflexivity. Qed.

Section RendererOnDetections.

Variable image : Type.
Variable getTextSize : text -> (Z * Z) * Z.
Implicit Types (f : frame image) (d : detection).

Lemma pixel_box_tensor_of f d :
  pixel_box f (tensor_of d) = Ok (detection_corners (shape f) d).
Proof. reflexivity. Qed.

Lemma put_put (a b : list draw_op) f : put b (put a f) = put (a ++ b) f.
Proof.
  unfold put. cbn [shape pixels overlay]. rewrite app_assoc. reflexivity.
Qed.

Lemma put_nil f : put [] f = f.
Proof.
  destruct f. unfold put. cbn [shape pixels overlay].
  rewrite app_nil_r. reflexivity.
Qed.

Lemma draw_detection_tensor_of f d (threshold : Qc) :
  draw_detection image getTextSize f (tensor_of d) threshold
  = Ok (if Qc_geb (conf d) threshold
        then put (box_ops getTextSize (tensor_of d)
                          (detection_corners (shape f) d)) f
        else f).
Proof.
  unfold draw_detection. rewrite pixel_box_tensor_of. cbn [bind].
  rewrite <- passes_tensor_of. unfold passes.
  destruct (ltb _ _); reflexivity.
Qed.

(** The renderer on finite rows: three calls for each detection at or above
    the threshold, in order, appended to the frame. *)
Lemma draw_detections_tensor_of (ds : list detection) (threshold : Qc) :
  forall f,
    draw_detections image getTextSize f (map tensor_of ds) threshold
    = Ok (put (detections_ops getTextSize (shape f)
                 (filter (fun d => Qc_geb (conf d) threshold) ds)) f).
Proof.
  induction ds as [|d ds IH]; intro f; cbn [map draw_detections filter].
  - unfold detections_ops. cbn [flat_map]. rewrite put_nil. reflexivity.
  - rewrite draw_detection_tensor_of. cbn [bind].
    destruct (Qc_geb (conf d) threshold).
    + rewrite IH. cbn [put shape]. rewrite put_put. reflexivity.
    + apply IH.
Qed.

End RendererOnDetections.

(** ** What a frame hands to the renderer *)

Lemma smooth_stabilized (args : Namespace) (detections : list (list detection))
  (h : detection_history_t) :
  snd (smooth args detections h)
  = Ok (option_map (map tensor_of) (stabilized args detections h)).
Proof.
  unfold stabilized.
  destruct (filtered_set args detections) as [|d l] eqn:E.
  - rewrite smooth_empty by exact E. reflexivity.
  - assert (N : filtered_set args detections <> [])
      by (rewrite E; discriminate).
    rewrite <- E.
    destruct (1 <? smooth_frames args) eqn:W.
    + apply Z.ltb_lt in W. rewrite smooth_enabled by assumption.
      cbv zeta. cbn [snd].
      destruct (2 <=? len _); [|reflexivity].
      rewrite averaging_branch. unfold spec_emission.
      destruct (averaged_confidence_passes _ _); reflexivity.
    + apply Z.ltb_ge in W. rewrite smooth_disabled by assumption. reflexivity.
Qed.

Lemma averaged_confidence_passes_le (args : Namespace) (reps : list detection) :
  averaged_confidence_passes args reps = true ->
  (conf_threshold args <= spec_weighted conf reps)%Qc.
Proof.
  unfold averaged_confidence_passes.
  destruct (Qsum (map conf reps) ?= 0)%Qc; try discriminate;
    apply Qc_geb_le.
Qed.

(** Whatever reaches the renderer is non-empty and at or above the
    threshold. *)
Lemma stabilized_qualifies (args : Namespace)
  (detections : list (list detection)) (h : detection_history_t)
  (ds : list detection) :
  stabilized args detections h = Some ds ->
  ds <> [] /\ Forall (fun d => (conf_threshold args <= conf d)%Qc) ds.
Proof.
  unfold stabilized.
  pose proof (filtered_set_ok args detections) as F.
  destruct (filtered_set args detections) as [|d l] eqn:E; [discriminate|].
  destruct (1 <? smooth_frames args).
  - cbv zeta. destruct (2 <=? len _).
    + destruct (averaged_confidence_passes _ _) eqn:P; [|discriminate].
      intro H. injection H as <-. split; [discriminate|].
      constructor; [|constructor]. cbn [averaged_detection conf].
      apply averaged_confidence_passes_le with (1 := P).
    + intro H. injection H as <-. split; [discriminate|exact F].
  - intro H. injection H as <-. split; [discriminate|exact F].
Qed.

Lemma filter_all {A : Type} (p : A -> bool) (l : list A) :
  Forall (fun x => p x = true) l -> filter p l = l.
Proof.
  induction 1 as [|x l Hx Hl IH]; cbn [filter]; [reflexivity|].
  rewrite Hx, IH. reflexivity.
Qed.

Section Annotate.

Variable image : Type.
Variable getTextSize : text -> (Z * Z) * Z.
Variable tensor : Type.
Variable predictions_t : Type.
Variable preprocess_frame : image -> Z -> tensor.
Variable model : tensor -> predictions_t.
Variable decode_predictions :
  predictions_t -> Qc -> Qc -> list (list detection).
Variable imencode : frame image -> option string.

Let detect :=
  detections_of image tensor predictions_t preprocess_frame model
                decode_predictions.
Let prepare :=
  annotate image getTextSize tensor predictions_t preprocess_frame model
           decode_predictions.

(** The annotated frame and the state after a frame, in closed form. *)
Lemma annotate_closed_form (args : Namespace) (st : state) (fr : frame image) :
  let o := stabilized args (detect args fr) (detection_history st) in
  prepare args st fr
  = (mkState (fst (smooth args (detect args fr) (detection_history st)))
             (frame_count st + 1),
     Ok (put (detections_ops getTextSize (shape fr)
                (match o with Some ds => ds | None => [] end)
              ++ status_ops (match o with Some _ => true | None => false end)
                            (frame_count st + 1)) fr)).
Proof.
  cbv zeta. unfold prepare, annotate, detect, detections_of. cbv zeta.
  pose proof (smooth_stabilized args
                (decode_predictions
                   (model (preprocess_frame (pixels fr) (image_size args)))
                   (conf_threshold args) (nms_threshold args))
                (detection_history st)) as S.
  pose proof (stabilized_qualifies args
                (decode_predictions
                   (model (preprocess_frame (pixels fr) (image_size args)))
                   (conf_threshold args) (nms_threshold args))
                (detection_history st)) as Q.
  destruct (smooth _ _ _) as [h outcome]. cbn [snd fst] in *. subst outcome.
  destruct (stabilized _ _ _) as [ds|]; cbn [option_map bind].
  - rewrite draw_detections_tensor_of. cbn [bind].
    destruct (Q ds eq_refl) as [_ F].
    rewrite filter_all
      by (revert F; apply Forall_impl; intros d Hd; apply Qc_geb_le; exact Hd).
    rewrite !put_put. reflexivity.
  - unfold detections_ops. cbn [flat_map app].
    rewrite !put_put. reflexivity.
Qed.

End Annotate.

(** ** Order properties of the weighted sum *)

Lemma Qsum_le (f g : detection -> Qc) (l : list detection) :
  (forall d, In d l -> (f d <= g d)%Qc) ->
  (Qsum (map f l) <= Qsum (map g l))%Qc.
Proof.
  induction l as [|d l IH]; intro H; cbn [map Qsum fold_right].
  - apply Qcle_refl.
  - apply Qcplus_le_compat.
    + apply H. left. reflexivity.
    + apply IH. intros d' Hd'. apply H. right. exact Hd'.
Qed.

Lemma Qsum_ext (f g : detection -> Qc) (l : list detection) :
  (forall d, f d = g d) -> Qsum (map f l) = Qsum (map g l).
Proof. intro H. f_equal. apply map_ext. exact H. Qed.

(** [S * Σ (c_i / S) * v_i = Σ c_i * v_i] for a non-zero sum [S]. *)
Lemma spec_weighted_times_sum (v : detection -> Qc) (reps : list detection) :
  Qsum (map conf reps) <> 0%Qc ->
  (spec_weighted v reps * Qsum (map conf reps))%Qc
  = Qsum (map (fun d => conf d * v d)%Qc reps).
Proof.
  intro H. unfold spec_weighted.
  rewrite (Qsum_ext _ (fun d => (conf d * v d) / Qsum (map conf reps))%Qc)
    by (intro d; unfold Qcdiv; ring).
  rewrite (Qsum_div (fun d => conf d * v d)%Qc).
  field. exact H.
Qed.

Lemma Qc_pos_neq (a : Qc) : (0 < a)%Qc -> a <> 0%Qc.
Proof. intros H E. subst. exact (Qclt_not_eq _ _ H eq_refl). Qed.

Lemma confidences_sum_pos (reps : list detection) :
  reps <> [] -> Forall (fun d => (0 < conf d)%Qc) reps ->
  (0 < Qsum (map conf reps))%Qc.
Proof.
  intros N F. apply Qsum_pos.
  - intro E. apply N. destruct reps; [reflexivity|discriminate].
  - apply Forall_map. exact F.
Qed.

(** With positive confidences the weighted sum is monotone in the
    coordinate. *)
Lemma spec_weighted_mono (u v : detection -> Qc) (reps : list detection) :
  reps <> [] -> Forall (fun d => (0 < conf d)%Qc) reps ->
  (forall d, In d reps -> (u d <= v d)%Qc) ->
  (spec_weighted u reps <= spec_weighted v reps)%Qc.
Proof.
  intros N F H.
  pose proof (confidences_sum_pos reps N F) as P.
  apply Qcmult_lt_0_le_reg_r with (1 := P).
  rewrite !spec_weighted_times_sum by (apply Qc_pos_neq; exact P).
  apply Qsum_le. intros d Hd.
  rewrite (Qcmult_comm (conf d) (u d)), (Qcmult_comm (conf d) (v d)).
  apply Qcmult_le_compat_r.
  - apply H. exact Hd.
  - apply Qclt_le_weak. rewrite Forall_forall in F. apply F. exact Hd.
Qed.

Lemma representatives_in (h : detection_history_t) (r : detection) :
  In r (representatives h) -> exists e, In e h /\ In r e.
Proof.
  unfold representatives. intro H. apply in_flat_map in H.
  destruct H as [e [He Hr]]. exists e. split; [exact He|].
  destruct e as [|d0 rest]; [destruct Hr|].
  destruct (best_of_highest d0 rest) as [r' [E [Hin _]]].
  rewrite E in Hr. destruct Hr as [<-|[]]. exact Hin.
Qed.

Lemma len_two_nonempty {A : Type} (l : list A) : 2 <= len l -> l <> [].
Proof. intros H E. subst. unfold len in H. cbn [List.length] in H. lia. Qed.

Lemma representatives_positive (args : Namespace) (h : detection_history_t) :
  (0 < conf_threshold args)%Qc ->
  history_ok (conf_threshold args) h -> h <> [] ->
  representatives h <> [] /\
  Forall (fun d => (0 < conf d)%Qc) (representatives h).
Proof.
  intros T Hok Hne.
  destruct (representatives_ok _ h Hok) as [Hlen Hall]. split.
  - intro E. apply Hne. apply length_zero_iff_nil. rewrite <- Hlen, E.
    reflexivity.
  - revert Hall. apply Forall_impl. intros d Hd.
    apply Qclt_le_trans with (conf_threshold args); assumption.
Qed.

(** X3. When a frame is answered by an averaged row and every stored
    detection is a well-formed box ([x_min <= x_max] and
    [y_min <= y_max]), the averaged box is well-formed too. *)
Theorem averaged_box_well_formed (args : Namespace)
  (detections : list (list detection)) (h : detection_history_t)
  (rows : list row) :
  (0 < conf_threshold args)%Qc ->
  history_ok (conf_threshold args) h ->
  1 < smooth_frames args ->
  2 <= len (fst (smooth args detections h)) ->
  (forall e d, In e (fst (smooth args detections h)) -> In d e ->
               (x_min d <= x_max d)%Qc /\ (y_min d <= y_max d)%Qc) ->
  snd (smooth args detections h) = Ok (Some rows) ->
  exists a,
    rows = [tensor_of a] /\
    (x_min a <= x_max a)%Qc /\ (y_min a <= y_max a)%Qc.
Proof.
  intros T Hok HW H2 B E.
  assert (N : filtered_set args detections <> []).
  { intro Z. rewrite (smooth_empty _ _ h Z) in E. discriminate E. }
  rewrite smooth_averages in E by assumption.
  unfold spec_emission in E.
  destruct (averaged_confidence_passes _ _); [|discriminate E].
  injection E as <-.
  exists (averaged_detection
            (representatives (fst (smooth args detections h)))).
  split; [reflexivity|].
  destruct (representatives_positive args (fst (smooth args detections h)) T)
    as [NE F]; [apply smooth_ok; exact Hok|apply len_two_nonempty; exact H2|].
  cbn [averaged_detection x_min y_min x_max y_max].
  split; apply spec_weighted_mono; try assumption;
    intros d Hd;
    destruct (representatives_in _ d Hd) as [e [He Hde]];
    destruct (B e d He Hde) as [B1 B2]; assumption.
Qed.

Lemma averaged_box_well_formed_witness :
  let h := run_history Sample.args [Sample.hit (decimal 9 10)] [] in
  exists rows a,
    snd (smooth Sample.args (Sample.hit (decimal 5 10)) h) = Ok (Some rows) /\
    rows = [tensor_of a] /\
    (x_min a <= x_max a)%Qc /\ (y_min a <= y_max a)%Qc.
Proof.
  intro h. eexists.
  assert (E : snd (smooth Sample.args (Sample.hit (decimal 5 10)) h)
              = Ok (Some [spec_row
                            (representatives
                               (fst (smooth Sample.args
                                       (Sample.hit (decimal 5 10)) h)))])).
  { rewrite smooth_averages;
      [|reflexivity|vm_compute; discriminate|vm_compute; discriminate].
    unfold spec_emission.
    replace (averaged_confidence_passes _ _) with true
      by (vm_compute; reflexivity).
    reflexivity. }
  assert (T : (0 < conf_threshold Sample.args)%Qc) by reflexivity.
  assert (Hok : history_ok (conf_threshold Sample.args) h)
    by (apply run_history_ok; constructor).
  assert (HW : 1 < smooth_frames Sample.args) by reflexivity.
  assert (H2 : 2 <= len (fst (smooth Sample.args
                                 (Sample.hit (decimal 5 10)) h)))
    by (vm_compute; discriminate).
  assert (B : forall e d,
             In e (fst (smooth Sample.args (Sample.hit (decimal 5 10)) h)) ->
             In d e -> (x_min d <= x_max d)%Qc /\ (y_min d <= y_max d)%Qc).
  { intros e d He Hd. vm_compute in He.
    destruct He as [<-|[<-|[]]]; destruct Hd as [<-|[]];
      split; vm_compute; discriminate. }
  destruct (averaged_box_well_formed _ _ _ _ T Hok HW H2 B E) as [a Ha].
  exists a. split; [exact E|exact Ha].
Defined.

(** ** The history as a sliding window *)

Lemma lastn_app_lastn {A : Type} (n : nat) (a b : list A) :
  lastn n (lastn n a ++ b) = lastn n (a ++ b).
Proof.
  unfold lastn.
  destruct (Nat.le_gt_cases (List.length a) n) as [L|G].
  - replace (List.length a - n)%nat with 0%nat by lia. reflexivity.
  - rewrite !length_app, length_skipn.
    rewrite !skipn_app, skipn_skipn, length_skipn.
    f_equal; f_equal; lia.
Qed.

Lemma lastn_short {A : Type} (n : nat) (l : list A) :
  (List.length l <= n)%nat -> lastn n l = l.
Proof.
  intro H. unfold lastn.
  replace (List.length l - n)%nat with 0%nat by lia. reflexivity.
Qed.

Lemma lastn_app_long {A : Type} (n : nat) (a b : list A) :
  (n <= List.length b)%nat -> lastn n (a ++ b) = lastn n b.
Proof.
  intro H. unfold lastn. rewrite length_app, skipn_app.
  rewrite skipn_all2 by lia. cbn [app]. f_equal. lia.
Qed.

Lemma push_evicting_lastn (args : Namespace) (e : list detection)
  (h : detection_history_t) :
  len h <= smooth_frames args ->
  push_evicting args e h = lastn (Z.to_nat (smooth_frames args)) (h ++ [e]).
Proof.
  intro H. unfold push_evicting. cbv zeta.
  destruct (smooth_frames args <? len (h ++ [e])) eqn:E.
  - apply Z.ltb_lt in E. unfold len in *. rewrite length_app in *.
    cbn [List.length] in *. unfold lastn. rewrite length_app.
    cbn [List.length].
    replace (List.length h + 1 - Z.to_nat (smooth_frames args))%nat
      with 1%nat by lia.
    destruct (h ++ [e]); reflexivity.
  - apply Z.ltb_ge in E. symmetry. apply lastn_short.
    unfold len in E. lia.
Qed.

Lemma run_hits_lastn (args : Namespace)
  (inputs : list (list (list detection))) :
  1 < smooth_frames args ->
  Forall (fun d => filtered_set args d <> []) inputs ->
  forall h,
    len h <= smooth_frames args ->
    run_history args inputs h
    = lastn (Z.to_nat (smooth_frames args))
            (h ++ map (filtered_set args) inputs).
Proof.
  intros HW F. induction F as [|d rest Hd Hrest IH]; intros h Hh.
  - cbn [run_history map]. rewrite app_nil_r. symmetry.
    apply lastn_short. unfold len in Hh. lia.
  - cbn [run_history map]. rewrite IH by (apply smooth_bound; exact Hh).
    rewrite smooth_history.
    destruct (filtered_set args d) as [|x l] eqn:E; [contradiction|].
    apply Z.ltb_lt in HW. rewrite HW.
    rewrite push_evicting_lastn by exact Hh.
    rewrite lastn_app_lastn, <- app_assoc. reflexivity.
Qed.

(** X4. Over a run of frames that all have a qualifying detection, the
    history is a sliding window: it holds the last [W] of the entries it had
    followed by the frames' filtered sets, and after [W] or more such frames
    it is exactly the filtered sets of the last [W] frames, whatever it held
    before. *)
Theorem history_is_sliding_window (args : Namespace)
  (inputs : list (list (list detection))) (h : detection_history_t) :
  1 < smooth_frames args ->
  len h <= smooth_frames args ->
  Forall (fun d => filtered_set args d <> []) inputs ->
  run_history args inputs h
  = lastn (Z.to_nat (smooth_frames args)) (h ++ map (filtered_set args) inputs)
  /\
  (smooth_frames args <= len inputs ->
   run_history args inputs h
   = lastn (Z.to_nat (smooth_frames args)) (map (filtered_set args) inputs)).
Proof.
  intros HW Hh F. split.
  - apply run_hits_lastn; assumption.
  - intro L. rewrite run_hits_lastn by assumption.
    apply lastn_app_long. rewrite length_map. unfold len in L. lia.
Qed.

Lemma history_is_sliding_window_witness :
  let a := mkArgs 416 (decimal 4 10) 2 (decimal 4 10) in
  let inputs := [Sample.hit (decimal 5 10); Sample.hit (decimal 6 10);
                 Sample.hit (decimal 7 10)] in
  run_history a inputs [[Sample.det (decimal 9 10)]]
  = lastn 2 (map (filtered_set a) inputs).
Proof.
  intros a inputs.
  destruct (history_is_sliding_window a inputs [[Sample.det (decimal 9 10)]])
    as [_ H].
  - reflexivity.
  - vm_compute. discriminate.
  - repeat constructor; vm_compute; discriminate.
  - apply H. vm_compute. discriminate.
Defined.

(** ** Flicker *)

Lemma run_outputs_app (args : Namespace)
  (xs ys : list (list (list detection))) (h : detection_history_t) :
  run_outputs args (xs ++ ys) h
  = run_outputs args xs h ++ run_outputs args ys (run_history args xs h).
Proof.
  revert h. induction xs as [|x xs IH]; intro h;
    cbn [app run_outputs run_history].
  - reflexivity.
  - rewrite IH. reflexivity.
Qed.

(** X5. Frames that alternate between a qualifying detection and none never
    get averaged: started on an empty history, each hit is handed to the
    renderer as its raw filtered set, each miss gives nothing, and the
    history is empty again after every pair. *)
Theorem flicker_is_never_averaged (args : Namespace)
  (pairs : list (list (list detection) * list (list detection))) :
  1 < smooth_frames args ->
  Forall (fun p => filtered_set args (fst p) <> [] /\
                   filtered_set args (snd p) = []) pairs ->
  run_history args (flicker pairs) [] = [] /\
  run_outputs args (flicker pairs) []
  = flat_map (fun p => [Ok (Some (map tensor_of (filtered_set args (fst p))));
                        Ok None]) pairs.
Proof.
  intros HW F. induction F as [|[hit miss] rest [Hh Hm] Hrest [IH1 IH2]].
  - split; reflexivity.
  - cbn [fst snd] in *. unfold flicker in *. cbn [flat_map fst snd].
    assert (S1 : smooth args hit []
                 = ([filtered_set args hit],
                    Ok (Some (map tensor_of (filtered_set args hit))))).
    { rewrite smooth_enabled by assumption. cbv zeta.
      unfold push_evicting. cbn [app]. unfold len. cbn [List.length].
      change (Z.of_nat 1) with 1.
      destruct (smooth_frames args <? 1) eqn:E;
        [apply Z.ltb_lt in E; lia|]. reflexivity. }
    assert (S2 : smooth args miss [filtered_set args hit] = ([], Ok None)).
    { rewrite smooth_empty by exact Hm. reflexivity. }
    split.
    + cbn [app run_history]. rewrite S1. cbn [fst]. rewrite S2. cbn [fst].
      exact IH1.
    + cbn [app run_outputs]. rewrite S1. cbn [fst snd]. rewrite S2.
      cbn [fst snd]. rewrite IH2. reflexivity.
Qed.

Lemma flicker_is_never_averaged_witness :
  let pairs := [(Sample.hit (decimal 9 10), Sample.miss);
                (Sample.hit (decimal 8 10), Sample.miss)] in
  run_history Sample.args (flicker pairs) [] = [] /\
  run_outputs Sample.args (flicker pairs) []
  = flat_map (fun p => [Ok (Some (map tensor_of
                                        (filtered_set Sample.args (fst p))));
                        Ok None]) pairs.
Proof.
  intro pairs. apply (flicker_is_never_averaged Sample.args pairs).
  - reflexivity.
  - repeat constructor; vm_compute; discriminate.
Defined.

(** ** Ties between detections *)

Lemma argmax_from_first (dflt : Qc) (l : list Qc) :
  forall (pre : list Qc) (best : Qc) (best_idx : nat),
    (best_idx < List.length pre)%nat ->
    nth best_idx pre dflt = best ->
    (forall j, (j < best_idx)%nat -> (nth j pre dflt < best)%Qc) ->
    (forall x, In x pre -> (x <= best)%Qc) ->
    let k := argmax_from best best_idx (List.length pre) l in
    forall j, (j < k)%nat ->
              (nth j (pre ++ l) dflt < nth k (pre ++ l) dflt)%Qc.
Proof.
  induction l as [|x t IH]; intros pre best best_idx Hlt Hnth Hfirst Hmax;
    cbn [argmax_from].
  - rewrite app_nil_r, Hnth. exact Hfirst.
  - assert (E : pre ++ x :: t = (pre ++ [x]) ++ t)
      by (rewrite <- app_assoc; reflexivity).
    assert (L : S (List.length pre) = List.length (pre ++ [x]))
      by (rewrite length_app; cbn [List.length]; lia).
    assert (Keep : forall b, (x <= b)%Qc ->
                     (forall y, In y pre -> (y <= b)%Qc) ->
                     forall y, In y (pre ++ [x]) -> (y <= b)%Qc).
    { intros b Hx Hb y Hy. apply in_app_or in Hy.
      destruct Hy as [Hy|[<-|[]]]; [apply Hb; exact Hy|exact Hx]. }
    rewrite E, L.
    destruct (x ?= best)%Qc eqn:C.
    + apply IH.
      * rewrite <- L. lia.
      * rewrite app_nth1 by exact Hlt. exact Hnth.
      * intros j Hj. rewrite app_nth1 by lia. apply Hfirst. exact Hj.
      * apply Keep; [|exact Hmax].
        apply Qceq_alt in C. rewrite C. apply Qcle_refl.
    + apply IH.
      * rewrite <- L. lia.
      * rewrite app_nth1 by exact Hlt. exact Hnth.
      * intros j Hj. rewrite app_nth1 by lia. apply Hfirst. exact Hj.
      * apply Keep; [|exact Hmax].
        apply Qclt_alt in C. apply Qclt_le_weak. exact C.
    + apply Qcgt_alt in C.
      apply (IH (pre ++ [x]) x (List.length pre)).
      * rewrite <- L. lia.
      * rewrite app_nth2 by lia. rewrite Nat.sub_diag. reflexivity.
      * intros j Hj. rewrite app_nth1 by exact Hj.
        apply Qcle_lt_trans with best; [|exact C].
        apply Hmax. apply nth_In. exact Hj.
      * apply Keep; [apply Qcle_refl|].
        intros y Hy. apply Qcle_trans with best;
          [apply Hmax; exact Hy|apply Qclt_le_weak; exact C].
Qed.

(** X6. The representative of a non-empty history entry is the first of its
    rows with the highest confidence: no row has a higher confidence, and
    every row before it has a strictly lower one. *)
Theorem representative_is_first_best (d0 : detection) (rest : list detection) :
  exists k,
    best_of (d0 :: rest) = [nth k (d0 :: rest) d0] /\
    (k < List.length (d0 :: rest))%nat /\
    (forall d, In d (d0 :: rest) -> (conf d <= conf (nth k (d0 :: rest) d0))%Qc)
    /\
    (forall j,
        (j < k)%nat ->
        (conf (nth j (d0 :: rest) d0) < conf (nth k (d0 :: rest) d0))%Qc).
Proof.
  exists (np_argmax (map conf (d0 :: rest))).
  pose proof (np_argmax_spec (conf d0) (conf d0) (map conf rest)) as [Hk Hmax].
  pose proof (argmax_from_first (conf d0) (map conf rest) [conf d0] (conf d0) 0)
    as Hfirst.
  change (conf d0 :: map conf rest) with (map conf (d0 :: rest)) in *.
  change ([conf d0] ++ map conf rest) with (map conf (d0 :: rest)) in *.
  rewrite length_map in Hk.
  split; [reflexivity|]. split; [exact Hk|]. split.
  - intros d Hd. rewrite <- (map_nth conf). apply Hmax.
    apply in_map. exact Hd.
  - intros j Hj. rewrite <- !(map_nth conf).
    apply Hfirst.
    + cbn [List.length]. lia.
    + reflexivity.
    + intros i Hi. lia.
    + intros y [<-|[]]. apply Qcle_refl.
    + exact Hj.
Qed.

(** ** More about what is drawn *)

Lemma Qc_of_Z_nonneg (z : Z) : 0 <= z -> (0 <= Qc_of_Z z)%Qc.
Proof.
  intro H. unfold Qc_of_Z, Qcle. cbn [this Q2Qc].
  rewrite !Qred_correct. unfold Qle, inject_Z. cbn [Qnum Qden]. lia.
Qed.

Lemma trunc_nonpos (q : Qc) : (q <= 0)%Qc -> trunc q <= 0.
Proof.
  unfold Qcle, Qle, trunc. cbn. intro H.
  rewrite <- (Z.quot_0_l (Z.pos (Qden q))) by discriminate.
  apply Z.quot_le_mono; lia.
Qed.

Lemma clamp_nonpos (hi x : Z) : x <= 0 -> clamp hi x = 0.
Proof. unfold clamp. lia. Qed.

Section LabelBackground.

Variable image : Type.
Variable getTextSize : text -> (Z * Z) * Z.

(** X7. The filled rectangle behind the label is not clamped: for a
    detection that touches the top edge ([y_min <= 0]) it is drawn from
    row [- text_height - baseline - 5], above the frame, down to row 0. *)
Theorem label_background_above_frame (f : frame image) (d : detection)
  (threshold : Qc) (text_width text_height baseline : Z) :
  0 <= fst (shape f) ->
  ~ (conf d < threshold)%Qc ->
  (y_min d <= 0)%Qc ->
  getTextSize (Wildfire (Fin (conf d)))
  = ((text_width, text_height), baseline) ->
  0 <= text_height -> 0 <= baseline ->
  exists x1 x2 y2 top,
    top <= -5 /\
    draw_detection image getTextSize f (tensor_of d) threshold
    = Ok (put [ Rectangle (x1, 0) (x2, y2) red 2;
                Rectangle (x1, top) (x1 + text_width, 0) red (-1);
                PutText (Wildfire (Fin (conf d))) (x1, 0 - baseline - 2)
                        (decimal 6 10) white 1 ] f).
Proof.
  intros Hh NL Hy Hsize Hth Hbl.
  rewrite draw_detection_tensor_of.
  assert (G : Qc_geb (conf d) threshold = true)
    by (apply Qc_geb_not_lt; exact NL).
  rewrite G. unfold box_ops, detection_corners. cbv zeta.
  cbn [tensor_of r_conf]. rewrite Hsize.
  rewrite (clamp_nonpos _ (trunc (y_min d * Qc_of_Z (fst (shape f))))).
  - do 4 eexists. split; [|reflexivity]. lia.
  - apply trunc_nonpos.
    rewrite <- (Qcmult_0_l (Qc_of_Z (fst (shape f)))).
    apply Qcmult_le_compat_r; [exact Hy|].
    apply Qc_of_Z_nonneg. exact Hh.
Qed.

End LabelBackground.

Lemma label_background_above_frame_witness :
  let d := mkDetection (decimal 1 10) 0%Qc (decimal 5 10) (decimal 6 10)
                       (decimal 9 10) 0%Qc in
  exists x1 x2 y2 top,
    top <= -5 /\
    draw_detection unit Sample.text_size Sample.vga (tensor_of d)
                   (decimal 4 10)
    = Ok (put [ Rectangle (x1, 0) (x2, y2) red 2;
                Rectangle (x1, top) (x1 + 120, 0) red (-1);
                PutText (Wildfire (Fin (conf d))) (x1, 0 - 5 - 2)
                        (decimal 6 10) white 1 ] Sample.vga).
Proof.
  intro d.
  apply (label_background_above_frame unit Sample.text_size Sample.vga d
           (decimal 4 10) 120 14 5).
  - vm_compute. discriminate.
  - vm_compute. discriminate.
  - vm_compute. discriminate.
  - reflexivity.
  - lia.
  - lia.
Defined.

Lemma filter_idem {A : Type} (p : A -> bool) (l : list A) :
  filter p (filter p l) = filter p l.
Proof.
  apply filter_all. apply Forall_forall. intros x Hx.
  apply filter_In in Hx. apply Hx.
Qed.

Section RendererTotals.

Variable image : Type.
Variable getTextSize : text -> (Z * Z) * Z.

Lemma detections_ops_length (shp : Z * Z) (ds : list detection) :
  List.length (detections_ops getTextSize shp ds) = (3 * List.length ds)%nat.
Proof.
  unfold detections_ops. induction ds as [|d ds IH]; [reflexivity|].
  cbn [flat_map]. rewrite length_app, IH.
  unfold box_ops. destruct (detection_corners shp d) as [[x1 y1] [x2 y2]].
  destruct (getTextSize _) as [[tw th] bl]. cbn [List.length]. lia.
Qed.

(** X8. On detector rows the renderer does its own filtering: drawing a
    detection set gives the same result as drawing the set filtered by the
    threshold; a frame it returns has the shape and the pixels it was
    given and exactly three more drawing calls for each detection at or
    above the threshold. *)
Theorem renderer_filters_and_counts (f : frame image) (ds : list detection)
  (threshold : Qc) :
  let kept := filter (fun d => Qc_geb (conf d) threshold) ds in
  draw_detections image getTextSize f (map tensor_of ds) threshold
  = draw_detections image getTextSize f (map tensor_of kept) threshold /\
  forall f',
    draw_detections image getTextSize f (map tensor_of ds) threshold = Ok f' ->
    shape f' = shape f /\ pixels f' = pixels f /\
    List.length (overlay f')
    = (List.length (overlay f) + 3 * List.length kept)%nat.
Proof.
  intro kept. rewrite !draw_detections_tensor_of. subst kept.
  rewrite filter_idem. split; [reflexivity|].
  intros f' E. injection E as <-. cbn [put shape pixels overlay].
  split; [reflexivity|]. split; [reflexivity|].
  rewrite length_app, detections_ops_length. reflexivity.
Qed.

Lemma to_int_not_finite (x : npfloat) (q : Qc) :
  is_finite x = false -> exists e, to_int (mul x (Fin q)) = Raise e.
Proof.
  destruct x; try discriminate; intros _; cbn [mul];
    unfold signed_inf; destruct (q ?= 0)%Qc; cbn [flip to_int];
    eexists; reflexivity.
Qed.

Lemma pixel_box_not_finite (f : frame image) (r : row) :
  box_finite r = false -> exists e, pixel_box f r = Raise e.
Proof.
  unfold box_finite, pixel_box. cbv zeta. intro H.
  destruct (is_finite (r_x_min r)) eqn:F1.
  - destruct (to_int_finite _ (Qc_of_Z (snd (shape f))) F1) as [a ->].
    cbn [bind].
    destruct (is_finite (r_y_min r)) eqn:F2.
    + destruct (to_int_finite _ (Qc_of_Z (fst (shape f))) F2) as [b ->].
      cbn [bind].
      destruct (is_finite (r_x_max r)) eqn:F3.
      * destruct (to_int_finite _ (Qc_of_Z (snd (shape f))) F3) as [c ->].
        cbn [bind].
        destruct (is_finite (r_y_max r)) eqn:F4; [discriminate|].
        destruct (to_int_not_finite _ (Qc_of_Z (fst (shape f))) F4)
          as [e ->].
        exists e. reflexivity.
      * destruct (to_int_not_finite _ (Qc_of_Z (snd (shape f))) F3)
          as [e ->].
        exists e. reflexivity.
    + destruct (to_int_not_finite _ (Qc_of_Z (fst (shape f))) F2) as [e ->].
      exists e. reflexivity.
  - destruct (to_int_not_finite _ (Qc_of_Z (snd (shape f))) F1) as [e ->].
    exists e. reflexivity.
Qed.

(** X9. A row that is not skipped (its confidence is not below the
    threshold, which includes a NaN confidence) and has a box coordinate
    that is NaN or infinite makes the renderer raise, whatever finite rows
    come before it and whatever comes after. *)
Theorem renderer_raises_on_non_finite_box (f : frame image)
  (before : list detection) (r : row) (after : list row) (threshold : Qc) :
  passes threshold r = true ->
  box_finite r = false ->
  exists e,
    draw_detections image getTextSize f (map tensor_of before ++ r :: after)
                    threshold = Raise e.
Proof.
  intros P B. revert f.
  induction before as [|d ds IH]; intro f; cbn [map app draw_detections].
  - unfold draw_detection. unfold passes in P.
    apply negb_true_iff in P. rewrite P.
    destruct (pixel_box_not_finite f r B) as [e ->].
    exists e. reflexivity.
  - rewrite draw_detection_tensor_of. cbn [bind]. apply IH.
Qed.

End RendererTotals.

(** Two detections, one of them below the threshold: three drawing
    calls. *)
Lemma renderer_filters_and_counts_witness :
  let ds := [Sample.det (decimal 9 10); Sample.det (decimal 1 10)] in
  exists f',
    draw_detections unit Sample.text_size Sample.vga (map tensor_of ds)
                    (decimal 4 10) = Ok f' /\
    shape f' = (480, 640) /\ pixels f' = tt /\
    List.length (overlay f') = 3%nat.
Proof.
  intro ds. eexists. split; [vm_compute; reflexivity|].
  destruct (renderer_filters_and_counts unit Sample.text_size Sample.vga ds
              (decimal 4 10)) as [_ H].
  apply H. vm_compute. reflexivity.
Defined.

Lemma renderer_raises_on_non_finite_box_witness :
  let r := mkRow NaN (Fin 0%Qc) (Fin 1%Qc) (Fin 1%Qc) NaN (Fin 0%Qc) in
  exists e,
    draw_detections unit Sample.text_size Sample.vga
      (map tensor_of [Sample.det (decimal 9 10)] ++ r :: []) (decimal 4 10)
    = Raise e.
Proof.
  intro r.
  apply (renderer_raises_on_non_finite_box unit Sample.text_size Sample.vga
           [Sample.det (decimal 9 10)] r [] (decimal 4 10));
    reflexivity.
Defined.

(** ** The chunk *)

Lemma append_inj_l (s a b : string) :
  (s ++ a)%string = (s ++ b)%string -> a = b.
Proof.
  induction s as [|c s IH]; cbn [append]; intro H; [exact H|].
  injection H as H. apply IH. exact H.
Qed.

Lemma length_append (a b : string) :
  String.length (a ++ b) = (String.length a + String.length b)%nat.
Proof. induction a as [|c a IH]; cbn [append String.length]; lia. Qed.

Lemma append_inj_r (a b t : string) :
  (a ++ t)%string = (b ++ t)%string -> a = b.
Proof.
  revert b. induction a as [|c a IH]; intros [|c' b] H; cbn [append] in H.
  - reflexivity.
  - apply (f_equal String.length) in H. cbn [String.length] in H.
    rewrite length_append in H. lia.
  - apply (f_equal String.length) in H. cbn [String.length] in H.
    rewrite length_append in H. lia.
  - injection H as -> H. f_equal. apply IH. exact H.
Qed.

(** X10. The multipart chunk is the frame's bytes between a fixed header of
    37 bytes and a trailing CR LF, so its length is the payload's plus 39,
    and two chunks are equal only if their payloads are. *)
Theorem chunk_frames_payload (frame_bytes other_bytes : string) :
  String.length (chunk frame_bytes) = (String.length frame_bytes + 39)%nat /\
  (chunk frame_bytes = chunk other_bytes -> frame_bytes = other_bytes).
Proof.
  split.
  - unfold chunk. rewrite !length_append. cbn [String.length crlf]. lia.
  - unfold chunk. intro H.
    repeat (apply append_inj_l in H).
    apply append_inj_r in H. exact H.
Qed.

(** ** More about the generator *)

Section Stream.

Variable image : Type.
Variable getTextSize : text -> (Z * Z) * Z.
Variable tensor : Type.
Variable predictions_t : Type.
Variable preprocess_frame : image -> Z -> tensor.
Variable model : tensor -> predictions_t.
Variable decode_predictions :
  predictions_t -> Qc -> Qc -> list (list detection).
Variable imencode : frame image -> option string.

Let detect :=
  detections_of image tensor predictions_t preprocess_frame model
                decode_predictions.
Let prepare :=
  annotate image getTextSize tensor predictions_t preprocess_frame model
           decode_predictions.
Let body :=
  iteration image getTextSize tensor predictions_t preprocess_frame model
            decode_predictions imencode.
Let loop :=
  frames_loop image getTextSize tensor predictions_t preprocess_frame model
              decode_predictions imencode.
Let feed :=
  video_feed image getTextSize tensor predictions_t preprocess_frame model
             decode_predictions imencode.

Lemma iteration_state (args : Namespace) (st : state) (fr : frame image) :
  exists o,
    body args st fr
    = (mkState (fst (smooth args (detect args fr) (detection_history st)))
               (frame_count st + 1),
       Ok o).
Proof.
  unfold body, iteration.
  pose proof (annotate_closed_form image getTextSize tensor predictions_t
                preprocess_frame model decode_predictions args st fr) as E.
  cbv zeta in E. rewrite E.
  destruct (imencode _); eexists; reflexivity.
Qed.

Lemma frames_loop_state (args : Namespace) (frames : list (frame image)) :
  forall st,
    exists chunks,
      loop args true frames st
      = (chunks, Finished,
         mkState (run_history args (map (detect args) frames)
                              (detection_history st))
                 (frame_count st + len frames)).
Proof.
  induction frames as [|fr rest IH]; intro st.
  - exists []. unfold loop. cbn [frames_loop negb map run_history].
    unfold len. cbn [List.length]. rewrite Z.add_0_r.
    destruct st. reflexivity.
  - unfold loop. cbn [frames_loop negb map run_history].
    destruct (iteration_state args st fr) as [o E].
    unfold body in E. rewrite E.
    destruct (IH (mkState
                    (fst (smooth args (detect args fr) (detection_history st)))
                    (frame_count st + 1))) as [cs Hcs].
    unfold loop in Hcs. cbn [detection_history frame_count] in Hcs.
    replace (frame_count st + len (fr :: rest))
      with (frame_count st + 1 + len rest)
      by (unfold len; cbn [List.length]; lia).
    destruct o as [c|]; rewrite Hcs; eexists; reflexivity.
Qed.

(** X11. When a stream has consumed the [N] frames of an opened capture
    and ended normally, the detection history is the one obtained by
    feeding the frames' detections one by one to the smoothing step, and
    the frame counter, started at 0, is [N]: frames whose encoding failed
    are counted too. *)
Theorem stream_final_state (args : Namespace) (frames : list (frame image))
  (history : detection_history_t) (chunks : list string) (st : state) :
  feed args (Some (mkCapture true frames)) history = (chunks, Finished, st) ->
  st = mkState (run_history args (map (detect args) frames) history)
               (len frames).
Proof.
  unfold feed, video_feed, generate_frames. cbn [isOpened pending].
  destruct (frames_loop_state args frames (mkState history 0)) as [cs E].
  unfold loop in E. rewrite E. intro H. injection H as _ <-.
  reflexivity.
Qed.


(** X13. The status line agrees with the boxes: the overlay of an
    annotated frame is three drawing calls for each detection of some
    list, all at or above the threshold, then the status text and the
    frame number; the text is FIRE DETECTED in red exactly when that list
    is non-empty, and No Fire in green when nothing was drawn. *)
Theorem status_text_matches_boxes (args : Namespace) (st : state)
  (fr df : frame image) :
  snd (prepare args st fr) = Ok df ->
  exists ds,
    Forall (fun d => (conf_threshold args <= conf d)%Qc) ds /\
    df = put (detections_ops getTextSize (shape fr) ds
              ++ status_ops (nonemptyb ds) (frame_count st + 1)) fr /\
    (nonemptyb ds = true <->
     exists rows,
       snd (smooth args (detect args fr) (detection_history st))
       = Ok (Some rows)).
Proof.
  pose proof (annotate_closed_form image getTextSize tensor predictions_t
                preprocess_frame model decode_predictions args st fr) as E.
  cbv zeta in E. unfold prepare. rewrite E. cbn [snd].
  fold detect. intro H. injection H as <-.
  pose proof (stabilized_qualifies args (detect args fr) (detection_history st))
    as Q.
  rewrite smooth_stabilized.
  destruct (stabilized args (detect args fr) (detection_history st))
    as [ds|].
  - destruct (Q ds eq_refl) as [N F].
    exists ds. split; [exact F|].
    assert (B : nonemptyb ds = true)
      by (destruct ds; [contradiction|reflexivity]).
    rewrite B. split; [reflexivity|].
    split; [intros _; eexists; reflexivity|reflexivity].
  - exists []. split; [constructor|]. split; [reflexivity|].
    cbn [nonemptyb option_map]. split; [discriminate|].
    intros [rows H]. discriminate.
Qed.

(** X14. When [/status] reports that the camera is not ready, the body of
    [/stream] is empty, it ends at once, and the detection history is left
    as it was. *)
Theorem no_camera_no_stream (model_t device_t : Type) (args : Namespace)
  (cap : option (VideoCapture image)) (loaded : option model_t)
  (device : option device_t) (str : device_t -> string)
  (history : detection_history_t) :
  camera_ready (status cap loaded device str) = false ->
  feed args cap history = ([], Finished, mkState history 0).
Proof.
  unfold status, feed, video_feed, generate_frames. cbn [camera_ready].
  destruct cap as [c|]; [|reflexivity].
  intro H. rewrite H. destruct (pending c); reflexivity.
Qed.

End Stream.

(** Three frames, the second without a fire and not encodable. *)
Lemma stream_final_state_witness :
  let frames := [Sample.shot true; Sample.shot false; Sample.shot true] in
  exists chunks st,
    video_feed bool Sample.text_size bool bool (fun img _ => img)
               (fun t => t) Sample.decode Sample.encoder Sample.args
               (Some (mkCapture true frames)) []
    = (chunks, Finished, st) /\
    st = mkState [[Sample.det (decimal 9 10)]] 3.
Proof.
  intro frames. eexists. eexists.
  assert (E : video_feed bool Sample.text_size bool bool (fun img _ => img)
                (fun t => t) Sample.decode Sample.encoder Sample.args
                (Some (mkCapture true frames)) []
              = (map chunk ["jpeg"; "jpeg"]%string, Finished,
                 mkState [[Sample.det (decimal 9 10)]] 3))
    by (vm_compute; reflexivity).
  split; [exact E|].
  rewrite (stream_final_state bool Sample.text_size bool bool
             (fun img _ => img) (fun t => t) Sample.decode Sample.encoder
             Sample.args frames [] _ _ E).
  vm_compute. reflexivity.
Defined.

(** A frame with a fire, on an empty history. *)
Lemma status_text_matches_boxes_witness :
  let st := mkState [] 0 in
  let fr := Sample.shot true in
  exists df ds,
    snd (annotate bool Sample.text_size bool bool (fun img _ => img)
                  (fun t => t) Sample.decode Sample.args st fr) = Ok df /\
    df = put (detections_ops Sample.text_size (shape fr) ds
              ++ status_ops (nonemptyb ds) 1) fr /\
    nonemptyb ds = true.
Proof.
  intros st fr. eexists.
  assert (E : snd (annotate bool Sample.text_size bool bool
                     (fun img _ => img) (fun t => t) Sample.decode
                     Sample.args st fr)
              = Ok (put (detections_ops Sample.text_size (shape fr)
                           [Sample.det (decimal 9 10)]
                         ++ status_ops true 1) fr))
    by (vm_compute; reflexivity).
  destruct (status_text_matches_boxes bool Sample.text_size bool bool
              (fun img _ => img) (fun t => t) Sample.decode Sample.args
              st fr _ E) as [ds [_ [D N]]].
  exists ds. split; [exact E|]. split; [exact D|].
  apply N. eexists. vm_compute. reflexivity.
Defined.

Lemma no_camera_no_stream_witness :
  let cap := Some (mkCapture false [Sample.shot true]) in
  video_feed bool Sample.text_size bool bool (fun img _ => img) (fun t => t)
             Sample.decode Sample.encoder Sample.args cap
             [[Sample.det (decimal 9 10)]]
  = ([], Finished, mkState [[Sample.det (decimal 9 10)]] 0).
Proof.
  intro cap.
  apply (no_camera_no_stream bool Sample.text_size bool bool
           (fun img _ => img) (fun t => t) Sample.decode Sample.encoder
           unit unit Sample.args cap None None (fun _ => EmptyString)).
  reflexivity.
Defined.

(** ** The start-up *)

(** X15. The device selection never ends on CUDA when CUDA is not
    available; [auto] means CUDA when it is available and the CPU
    otherwise; with CUDA available an explicit request is taken as it
    parses. *)
Theorem device_selection (requested : string) (cuda_is_available : bool)
  (parse : string -> option torch_device) :
  (forall d, select_device requested false parse = Some d ->
             dev_type d <> "cuda"%string) /\
  select_device "auto" cuda_is_available parse
  = Some (mkDevice (if cuda_is_available then "cuda" else "cpu") None) /\
  (requested <> "auto"%string ->
   select_device requested true parse = parse requested).
Proof.
  split; [|split].
  - intros d. unfold select_device.
    destruct (String.eqb requested "auto").
    + intro H. injection H as <-. discriminate.
    + destruct (parse requested) as [device|]; [|discriminate].
      destruct (String.eqb (dev_type device) "cuda") eqn:E; cbn [andb negb].
      * intro H. injection H as <-. discriminate.
      * intro H. injection H as <-. apply String.eqb_neq. exact E.
  - unfold select_device. cbn. destruct cuda_is_available; reflexivity.
  - intro N. unfold select_device.
    apply String.eqb_neq in N. rewrite N.
    destruct (parse requested) as [device|]; [|reflexivity].
    rewrite andb_false_r. reflexivity.
Qed.

(** ** Where the history entries come from *)

Lemma in_tl {A : Type} (x : A) (l : list A) : In x (tl l) -> In x l.
Proof. destruct l; [intros []|]. intro H. right. exact H. Qed.

Lemma in_push_evicting (args : Namespace) (e x : list detection)
  (h : detection_history_t) :
  In x (push_evicting args e h) -> In x h \/ x = e.
Proof.
  unfold push_evicting. cbv zeta. intro H.
  assert (H' : In x (h ++ [e]))
    by (destruct (smooth_frames args <? len (h ++ [e]));
        [apply in_tl|]; exact H).
  apply in_app_or in H'. destruct H' as [H'|[<-|[]]]; auto.
Qed.

(** X16. The history only ever holds filtered sets of frames it was fed:
    an entry of the history after a run was in the history before the run
    or is the non-empty filtered set of one of the run's frames. *)
Theorem history_entries_come_from_frames (args : Namespace)
  (inputs : list (list (list detection))) (h : detection_history_t)
  (e : list detection) :
  In e (run_history args inputs h) ->
  In e h \/
  exists detections,
    In detections inputs /\ e = filtered_set args detections /\ e <> [].
Proof.
  revert h. induction inputs as [|d rest IH]; intros h H;
    cbn [run_history] in H.
  - left. exact H.
  - destruct (IH _ H) as [Hin|[d' [Hd' He]]].
    + rewrite smooth_history in Hin.
      destruct (filtered_set args d) as [|x l] eqn:E.
      * left. apply in_tl. exact Hin.
      * destruct (1 <? smooth_frames args); [|left; exact Hin].
        apply in_push_evicting in Hin.
        destruct Hin as [Hin| ->]; [left; exact Hin|].
        right. exists d. split; [left; reflexivity|].
        rewrite E. split; [reflexivity|discriminate].
    + right. exists d'. split; [right; exact Hd'|exact He].
Qed.

Lemma history_entries_come_from_frames_witness :
  let inputs := [Sample.hit (decimal 9 10); Sample.miss;
                 Sample.hit (decimal 5 10)] in
  let e := [Sample.det (decimal 5 10)] in
  In e [] \/
  exists detections,
    In detections inputs /\ e = filtered_set Sample.args detections /\ e <> [].
Proof.
  intros inputs e.
  apply (history_entries_come_from_frames Sample.args inputs [] e).
  vm_compute. left. reflexivity.
Defined.

(** ** How the window fills and drains *)

(** X18. With smoothing on, a frame with a qualifying detection makes the
    history one entry longer up to the bound [W], and a frame without one
    makes it one entry shorter down to empty. *)
Theorem history_length_step (args : Namespace)
  (detections : list (list detection)) (h : detection_history_t) :
  1 < smooth_frames args ->
  len h <= smooth_frames args ->
  len (fst (smooth args detections h))
  = if nonemptyb (filtered_set args detections)
    then Z.min (smooth_frames args) (len h + 1)
    else Z.max 0 (len h - 1).
Proof.
  intros HW Hh. rewrite smooth_history.
  destruct (filtered_set args detections) as [|d l]; cbn [nonemptyb].
  - unfold len. destruct h; cbn [tl List.length]; lia.
  - apply Z.ltb_lt in HW. rewrite HW. unfold push_evicting. cbv zeta.
    destruct (smooth_frames args <? len (h ++ [d :: l])) eqn:E.
    + apply Z.ltb_lt in E. rewrite len_tl_app1.
      unfold len in *. rewrite length_app in E. cbn [List.length] in E. lia.
    + apply Z.ltb_ge in E.
      unfold len in *. rewrite length_app in *. cbn [List.length] in *. lia.
Qed.

Lemma history_length_step_witness :
  len (fst (smooth Sample.args (Sample.hit (decimal 9 10))
                   [[Sample.det (decimal 5 10)]]))
  = if nonemptyb (filtered_set Sample.args (Sample.hit (decimal 9 10)))
    then Z.min 10 (1 + 1)
    else Z.max 0 (1 - 1).
Proof.
  apply (history_length_step Sample.args (Sample.hit (decimal 9 10))
           [[Sample.det (decimal 5 10)]]).
  - reflexivity.
  - vm_compute. discriminate.
Defined.

(** ** The smoothing step in the arithmetic of the code *)

Section InArithmeticFacts.

Variable A : arithmetic.

Lemma smooth_in_history (args : Namespace)
  (detections : list (list detection)) (h : detection_history_t) :
  fst (smooth_in A args detections h) = fst (smooth args detections h).
Proof.
  unfold smooth_in, smooth.
  destruct ((0 <? len detections) && (0 <? len (nth 0 detections [])));
    [|reflexivity].
  cbv zeta. destruct (0 <? len _); [|reflexivity].
  destruct (1 <? smooth_frames args); [|reflexivity].
  destruct (2 <=? len _); [|reflexivity].
  destruct (representatives _); reflexivity.
Qed.

Lemma smooth_in_empty (args : Namespace) (detections : list (list detection))
  (h : detection_history_t) :
  filtered_set args detections = [] ->
  smooth_in A args detections h = (evict_oldest h, Ok None).
Proof.
  unfold filtered_set, smooth_in. intro H.
  destruct ((0 <? len detections) && (0 <? len (nth 0 detections [])));
    [|reflexivity].
  rewrite H. reflexivity.
Qed.

Lemma smooth_in_enabled (args : Namespace)
  (detections : list (list detection)) (h : detection_history_t) :
  1 < smooth_frames args ->
  filtered_set args detections <> [] ->
  smooth_in A args detections h
  = let h2 := push_evicting args (filtered_set args detections) h in
    (h2,
     if 2 <=? len h2 then
       match representatives h2 with
       | [] => Ok None
       | _ :: _ => average_row_in A args (representatives h2)
       end
     else Ok (Some (map (lift_row A) (filtered_set args detections)))).
Proof.
  intros HW H. unfold smooth_in.
  rewrite (filtered_set_guard _ _ H). fold (filtered_set args detections).
  rewrite (len_pos _ H).
  apply Z.ltb_lt in HW. rewrite HW.
  fold (push_evicting args (filtered_set args detections) h). cbv zeta.
  destruct (2 <=? len _); [|reflexivity].
  destruct (representatives _); reflexivity.
Qed.

Lemma normalized_weights_in_weight (reps : list detection) :
  normalized_weights_in A reps = map (weight_in A reps) reps.
Proof.
  unfold normalized_weights_in, weight_in, column_in. cbv zeta.
  rewrite map_map. reflexivity.
Qed.

Lemma np_average_in_weighted (axis : reduction) (v : detection -> Qc)
  (reps : list detection) :
  np_average_in A axis (column_in A v reps) (normalized_weights_in A reps)
  = if is_zero A (np_sum A axis (map (weight_in A reps) reps))
    then Raise ZeroDivisionError
    else Ok (weighted_average_in A axis v reps).
Proof.
  unfold np_average_in, weighted_average_in. cbv zeta.
  rewrite normalized_weights_in_weight.
  unfold column_in. rewrite combine_map_same, map_map. reflexivity.
Qed.

(** The averaging of the code is the specification's step 4 in the same
    arithmetic. *)
Lemma average_row_in_emission (args : Namespace) (r : detection)
  (reps : list detection) :
  average_row_in A args (r :: reps) = emission_in A args (r :: reps).
Proof.
  unfold average_row_in, emission_in. cbv zeta.
  rewrite !np_average_in_weighted.
  destruct (is_zero A (np_sum A Axis0 _)); [reflexivity|].
  cbn [bind orb].
  destruct (is_zero A (np_sum A Flat _)); [reflexivity|].
  cbn [bind]. unfold averaged_row_in.
  destruct (ge_threshold A _ _); reflexivity.
Qed.

Lemma smooth_in_averages (args : Namespace)
  (detections : list (list detection)) (h : detection_history_t) :
  1 < smooth_frames args ->
  filtered_set args detections <> [] ->
  2 <= len (fst (smooth_in A args detections h)) ->
  snd (smooth_in A args detections h)
  = emission_in A args
      (representatives (fst (smooth_in A args detections h))).
Proof.
  intros HW N. rewrite smooth_in_enabled by assumption.
  cbv zeta. cbn [fst snd]. intro H2. apply Z.leb_le in H2. rewrite H2.
  destruct (representatives _) as [|r reps]; [reflexivity|].
  apply average_row_in_emission.
Qed.

Lemma weighted_average_in_single (axis : reduction) (v : detection -> Qc)
  (r : detection) :
  np_div A (lift A (conf r)) (lift A (conf r)) = lift A 1%Qc ->
  unit_laws A (lift A 1%Qc) -> unit_laws A (lift A (conf r)) ->
  unit_laws A (lift A (v r)) ->
  weighted_average_in A axis v [r] = lift A (v r).
Proof.
  intros Hw [S1 [S1' _]] [Sc _] [Sv [Sv' [Mv Dv]]].
  assert (W : weight_in A [r] r = lift A 1%Qc).
  { unfold weight_in, column_in. cbn [map]. rewrite Sc. exact Hw. }
  unfold weighted_average_in. cbn [map]. rewrite W, Mv.
  destruct axis.
  - rewrite Sv, S1. exact Dv.
  - rewrite Sv', S1'. exact Dv.
Qed.

Lemma averaged_row_in_single (r : detection) :
  single_laws A r -> averaged_row_in A [r] = single_row A r.
Proof.
  intros [Hw [_ [U1 [Ua [Ub [Uc [Ud Ue]]]]]]].
  unfold averaged_row_in, single_row.
  rewrite !weighted_average_in_single by assumption. reflexivity.
Qed.

Lemma emission_in_some (args : Namespace) (reps : list detection)
  (rows : list (row_in A)) :
  emission_in A args reps = Ok (Some rows) ->
  rows = [averaged_row_in A reps] /\
  ge_threshold A (weighted_average_in A Flat conf reps) (conf_threshold args)
  = true.
Proof.
  unfold emission_in. destruct reps as [|r reps]; [discriminate|].
  destruct (_ || _); [discriminate|].
  destruct (ge_threshold A _ _); [|discriminate].
  intro E. injection E as <-. split; reflexivity.
Qed.

Lemma smooth_in_emits (args : Namespace) (detections : list (list detection))
  (h : detection_history_t) (rows : list (row_in A)) :
  1 < smooth_frames args ->
  2 <= len (fst (smooth_in A args detections h)) ->
  snd (smooth_in A args detections h) = Ok (Some rows) ->
  filtered_set args detections <> [] /\
  emission_in A args (representatives (fst (smooth_in A args detections h)))
  = Ok (Some rows).
Proof.
  intros HW H2 E.
  assert (N : filtered_set args detections <> []).
  { intro Z. rewrite (smooth_in_empty _ _ h Z) in E. discriminate E. }
  split; [exact N|].
  rewrite <- E. symmetry. apply smooth_in_averages; assumption.
Qed.

(** The averaging branch when no weight sum is zero and the averaged
    confidence passes. *)
Lemma smooth_in_passes (args : Namespace) (detections : list (list detection))
  (h : detection_history_t) (reps : list detection) :
  1 < smooth_frames args ->
  filtered_set args detections <> [] ->
  2 <= len (fst (smooth_in A args detections h)) ->
  representatives (fst (smooth_in A args detections h)) = reps ->
  reps <> [] ->
  is_zero A (np_sum A Axis0 (map (weight_in A reps) reps)) = false ->
  is_zero A (np_sum A Flat (map (weight_in A reps) reps)) = false ->
  ge_threshold A (weighted_average_in A Flat conf reps) (conf_threshold args)
  = true ->
  snd (smooth_in A args detections h) = Ok (Some [averaged_row_in A reps]).
Proof.
  intros HW N H2 R NE Z1 Z2 G. rewrite smooth_in_averages by assumption.
  rewrite R. unfold emission_in.
  destruct reps as [|r reps']; [contradiction|].
  rewrite Z1, Z2, G. reflexivity.
Qed.

End InArithmeticFacts.

(** Without rounding the average of the code is the weighted sum
    [Σ (c_i / Σ c_j) * v_i]. *)
Lemma weighted_average_exact (axis : reduction) (v : detection -> Qc)
  (reps : list detection) :
  Qsum (map conf reps) <> 0%Qc ->
  weighted_average_in exact_arithmetic axis v reps
  = Fin (spec_weighted v reps).
Proof.
  intro H.
  pose proof (np_average_in_weighted exact_arithmetic axis v reps) as E.
  change (np_average_in exact_arithmetic axis
            (column_in exact_arithmetic v reps)
            (normalized_weights_in exact_arithmetic reps))
    with (np_average (column v reps) (normalized_weights reps)) in E.
  rewrite np_average_spec in E by exact H.
  destruct (is_zero exact_arithmetic _); [discriminate E|].
  injection E as E. symmetry. exact E.
Qed.

(** ** The emitted average *)

(** Closes a goal on concrete data by evaluation. *)
Ltac evaluated := try reflexivity; vm_compute; (reflexivity || discriminate).

(** C1, as stated, fails.  The same box seen at confidence 0.5 and then at
    confidence 1 has the weighted sum 7/8 for its right edge, a binary32
    value; the weights 1/3 and 2/3 are rounded and the row emitted has
    [7/8 + 2^-24] there. *)
Lemma emitted_row_is_exact_weighted_sum_fails :
  ~ emitted_row_is_exact_weighted_sum.
Proof.
  intro H.
  destruct (H Binary32.args [[Binary32.box 1%Qc]]
              [[Binary32.box (Q2Qc (1 # 2))]]
              (averaged_row_in Binary32.arith
                 [Binary32.box (Q2Qc (1 # 2)); Binary32.box 1%Qc]))
    as [_ [_ [X _]]].
  - reflexivity.
  - repeat apply Forall_cons; try apply Forall_nil;
      unfold Binary32.is_row; repeat apply conj; vm_compute; reflexivity.
  - vm_compute. discriminate.
  - apply smooth_in_passes; evaluated.
  - vm_compute in X. discriminate X.
Qed.

(** C1, amended.  With smoothing on and two or more entries in the history
    after the update, the representatives are the highest-confidence rows
    of the non-empty entries, one each and in order, and a row that is
    emitted is the row of their weighted averages: for each coordinate and
    for the confidence, the sum of the products [v_i * w_i] divided by the
    sum of the weights [w_i = c_i / Σ c_j], every operation being the
    one of the arithmetic at hand.  Without rounding that row is the row
    of the sums [Σ (c_i / Σ c_j) * v_i]; over a single representative
    whose values behave as finite values with a non-zero confidence it is
    the representative's box and confidence. *)
Theorem emitted_row_is_rounded_average (A : arithmetic) (args : Namespace)
  (detections : list (list detection)) (h : detection_history_t)
  (rows : list (row_in A)) :
  let h' := fst (smooth_in A args detections h) in
  let reps := representatives h' in
  1 < smooth_frames args ->
  2 <= len h' ->
  snd (smooth_in A args detections h) = Ok (Some rows) ->
  Forall2 highest_confidence (filter nonemptyb h') reps /\
  rows = [averaged_row_in A reps] /\
  (Qsum (map conf reps) <> 0%Qc ->
   averaged_row_in exact_arithmetic reps
   = @mkRowIn exact_arithmetic
       (Fin (spec_weighted x_min reps)) (Fin (spec_weighted y_min reps))
       (Fin (spec_weighted x_max reps)) (Fin (spec_weighted y_max reps))
       (Fin (spec_weighted conf reps)) (Fin 0%Qc)) /\
  (forall r, reps = [r] -> single_laws A r -> rows = [single_row A r]).
Proof.
  intros h' reps HW H2 E.
  destruct (smooth_in_emits A args detections h rows HW H2 E) as [_ Em].
  destruct (emission_in_some A args _ rows Em) as [R _].
  fold h' in R. fold reps in R.
  split; [apply representatives_highest|].
  split; [exact R|]. split.
  - intro NZ. unfold averaged_row_in.
    rewrite !weighted_average_exact by exact NZ. reflexivity.
  - intros r Hr L. rewrite R, Hr. f_equal.
    apply averaged_row_in_single. exact L.
Qed.

(** In binary32: a box at confidence 0.5 in the history and the same box at
    confidence 1 in the frame. *)
Lemma emitted_row_is_rounded_average_witness :
  let args := Binary32.args in
  let detections := [[Binary32.box 1%Qc]] in
  let h := [[Binary32.box (Q2Qc (1 # 2))]] in
  let reps := [Binary32.box (Q2Qc (1 # 2)); Binary32.box 1%Qc] in
  representatives (fst (smooth_in Binary32.arith args detections h)) = reps /\
  exists rows,
    snd (smooth_in Binary32.arith args detections h) = Ok (Some rows) /\
    rows = [averaged_row_in Binary32.arith
              (representatives
                 (fst (smooth_in Binary32.arith args detections h)))] /\
    Binary32.value (weighted_average_in Binary32.arith Axis0 x_max reps)
    = Some (14680065 # 16777216).
Proof.
  intros args detections h reps.
  split; [vm_compute; reflexivity|].
  exists [averaged_row_in Binary32.arith reps].
  assert (E : snd (smooth_in Binary32.arith args detections h)
              = Ok (Some [averaged_row_in Binary32.arith reps]))
    by (apply smooth_in_passes; evaluated).
  split; [exact E|].
  destruct (emitted_row_is_rounded_average Binary32.arith args detections h
              [averaged_row_in Binary32.arith reps])
    as [_ [R _]].
  - reflexivity.
  - vm_compute. discriminate.
  - exact E.
  - split; [exact R|vm_compute; reflexivity].
Defined.

(** A single representative in binary32 is emitted as it is, with class
    id 0. *)
Example single_representative_unchanged :
  let r := Binary32.box (Q2Qc (3 # 4)) in
  single_laws Binary32.arith r /\
  snd (smooth_in Binary32.arith Binary32.args [[r]] [[]])
  = Ok (Some [single_row Binary32.arith r]).
Proof.
  intro r.
  assert (L : single_laws Binary32.arith r)
    by (unfold single_laws, unit_laws; repeat apply conj;
        vm_compute; reflexivity).
  split; [exact L|].
  rewrite <- (averaged_row_in_single Binary32.arith r L).
  apply smooth_in_passes; evaluated.
Qed.

(** C3, amended.  With smoothing on and two or more entries in the history
    after the update, the representatives are the highest-confidence rows
    of the non-empty entries.  A frame with a qualifying detection is
    answered by the averaging step over them: [ZeroDivisionError] when the
    normalized weights sum to zero, otherwise one row of class 0 carrying
    the averaged confidence when that confidence is at least the threshold,
    and nothing when it is not.  A frame without a qualifying detection is
    answered by nothing, whatever the history holds. *)
Theorem hit_emits_rounded_average (A : arithmetic) (args : Namespace)
  (detections : list (list detection)) (h : detection_history_t) :
  let h' := fst (smooth_in A args detections h) in
  let reps := representatives h' in
  1 < smooth_frames args ->
  2 <= len h' ->
  Forall2 highest_confidence (filter nonemptyb h') reps /\
  (filtered_set args detections <> [] ->
   snd (smooth_in A args detections h) = emission_in A args reps /\
   forall rows,
     snd (smooth_in A args detections h) = Ok (Some rows) ->
     exists r,
       rows = [r] /\ i_class_id r = lift A 0%Qc /\
       i_conf r = weighted_average_in A Flat conf reps /\
       ge_threshold A (i_conf r) (conf_threshold args) = true) /\
  (filtered_set args detections = [] ->
   smooth_in A args detections h = (evict_oldest h, Ok None)).
Proof.
  intros h' reps HW H2.
  split; [apply representatives_highest|]. split.
  - intro N.
    assert (E : snd (smooth_in A args detections h) = emission_in A args reps)
      by (apply smooth_in_averages; assumption).
    split; [exact E|].
    intros rows Hrows. rewrite E in Hrows.
    destruct (emission_in_some A args reps rows Hrows) as [R G].
    exists (averaged_row_in A reps).
    split; [exact R|]. split; [reflexivity|]. split; [reflexivity|exact G].
  - apply smooth_in_empty.
Qed.

(** In binary32: the frame at confidence 1 after one at 0.5 is answered by
    one row of class 0. *)
Lemma hit_emits_rounded_average_witness :
  let args := Binary32.args in
  let detections := [[Binary32.box 1%Qc]] in
  let h := [[Binary32.box (Q2Qc (1 # 2))]] in
  filtered_set args detections <> [] /\
  snd (smooth_in Binary32.arith args detections h)
  = emission_in Binary32.arith args
      (representatives (fst (smooth_in Binary32.arith args detections h))) /\
  exists r,
    snd (smooth_in Binary32.arith args detections h) = Ok (Some [r]) /\
    i_class_id r = S754_zero false /\
    ge_threshold Binary32.arith (i_conf r) (conf_threshold args) = true.
Proof.
  intros args detections h.
  assert (N : filtered_set args detections <> [])
    by (vm_compute; discriminate).
  split; [exact N|].
  destruct (hit_emits_rounded_average Binary32.arith args detections h)
    as [_ [E _]].
  - reflexivity.
  - vm_compute. discriminate.
  - destruct (E N) as [E1 E2]. split; [exact E1|].
    assert (P : snd (smooth_in Binary32.arith args detections h)
                = Ok (Some [averaged_row_in Binary32.arith
                              [Binary32.box (Q2Qc (1 # 2));
                               Binary32.box 1%Qc]]))
      by (apply smooth_in_passes; evaluated).
    destruct (E2 _ P) as [r [Hr [C [_ G]]]].
    exists r. split; [rewrite P, Hr; reflexivity|].
    split; [rewrite C; vm_compute; reflexivity|exact G].
Defined.

(** ** The threshold in the controller and in the renderer *)





Section Threshold.

Variable image : Type.
Variable getTextSize : text -> (Z * Z) * Z.



End Threshold.


(** ** The stream of a capture whose detections are in range *)

Section BoundedStream.

Variable image : Type.
Variable getTextSize : text -> (Z * Z) * Z.
Variable tensor : Type.
Variable predictions_t : Type.
Variable preprocess_frame : image -> Z -> tensor.
Variable model : tensor -> predictions_t.
Variable decode_predictions :
  predictions_t -> Qc -> Qc -> list (list detection).
Variable imencode : frame image -> option string.

Let detect :=
  detections_of image tensor predictions_t preprocess_frame model
                decode_predictions.
Let generator :=
  generate_frames image getTextSize tensor predictions_t preprocess_frame
                  model decode_predictions imencode.
Let failures :=
  encode_failures image getTextSize tensor predictions_t preprocess_frame
                  model decode_predictions imencode.

(** C8. A capture that delivers [N] frames and then reports the end of the
    stream makes the generator finish without an exception, after yielding
    one well-formed chunk for each frame except those whose encoding
    failed.  The detector's rows, those already in the history, the frame
    sizes and the window are in range: confidences in [[0, 1]], box
    coordinates, frame sizes and lengths within [2^16], which keeps every
    binary32 operation of the averaging and of the renderer finite. *)
Theorem stream_chunk_per_encoded_frame (args : Namespace)
  (frames : list (frame image)) (st : state) :
  smooth_frames args <= 65536 ->
  history_in_range (detection_history st) = true ->
  Forall (fun fr => shape_in_range (shape fr) = true /\
                    forallb in_range (nth 0 (detect args fr) []) = true)
         frames ->
  let '(chunks, e, _) :=
    generator args (Some (mkCapture true frames)) st in
  e = Finished /\
  (List.length chunks + failures args frames st = List.length frames)%nat /\
  Forall (fun c => exists frame_bytes, c = chunk frame_bytes) chunks.
Proof.
  intros _ _ _. unfold generator, failures, generate_frames.
  cbn [isOpened pending]. apply frames_loop_counts.
Qed.

End BoundedStream.

(** Three frames, the second of which does not encode. *)
Lemma stream_chunk_per_encoded_frame_witness :
  let frames := [Sample.shot true; Sample.shot false; Sample.shot true] in
  let '(chunks, e, _) := Sample.stream frames in
  e = Finished /\
  (List.length chunks
   + encode_failures bool Sample.text_size bool bool (fun img _ => img)
                     (fun t => t) Sample.decode Sample.encoder Sample.args
                     frames (mkState [] 0)
   = List.length frames)%nat /\
  Forall (fun c => exists frame_bytes, c = chunk frame_bytes) chunks.
Proof.
  intro frames.
  apply (stream_chunk_per_encoded_frame bool Sample.text_size bool bool
           (fun img _ => img) (fun t => t) Sample.decode Sample.encoder
           Sample.args frames (mkState [] 0)).
  - vm_compute. discriminate.
  - reflexivity.
  - repeat apply Forall_cons; try apply Forall_nil; split; reflexivity.
Defined.
